(** * etcdmate: membership reconciliation

    A shallow embedding of [main.go] (the reconciler: [RemoveStaleMembers],
    [GetMyself], [MaybeAddMyself], [WriteDropIn] and the part of [main] that
    drives them) and of the package [etcdclient] (the admin client:
    [FindHealthyMember], [ListMembers], [AddMember], [RemoveMember]).

    The program is sequential and talks to the outside world through HTTP
    calls, the file system and the logger.  Every such effect is recorded, in
    program order and together with the answer it got, in a trace; what the
    outside world answers is given by an environment whose answers may depend
    on everything that happened before. *)

From Stdlib Require Import ZArith Ascii String.
From stdpp Require Import base strings list gmap pretty.

Local Open Scope Z_scope.
Local Open Scope string_scope.
Local Open Scope list_scope.

(** ** Strings of the Go sources *)

(** Go's [error] values are identified with their message. *)
Definition error : Type := string.

Definition LF : string := String "010"%char EmptyString.
Definition DQUOTE : string := String "034"%char EmptyString.

(** [strings.Join(elems, sep)] *)
Definition strings_Join (elems : list string) (sep : string) : string :=
  String.concat sep elems.

(** ** Package [etcdclient]: data *)

Record Member : Type := mkMember {
  ID : string;
  Name : string;
  ClientURL : string;
  PeerURL : string
}.

(** The zero value [Member{}]. *)
Definition Member_zero : Member :=
  mkMember EmptyString EmptyString EmptyString EmptyString.

Module Json.
(** [type jsonMember struct], the shape of one element of the [members]
    array of the list response. *)
Record jsonMember : Type := mk {
  Id : string;
  Name : string;
  ClientURLs : list string;
  PeerURLs : list string
}.
End Json.

(** ** Effects *)

Inductive Verb : Type := GET | POST | DELETE.

Record Request : Type := mkRequest {
  verb : Verb;
  url : string;
  contentType : string;
  reqBody : string
}.

Record Response : Type := mkResponse {
  StatusCode : Z;
  Body : string
}.

(** What [httpClient.Get], [.Post] and [.Do] return: [(resp, err)]. *)
Inductive HttpResult : Type :=
| HttpErr (err : error)
| HttpResp (resp : Response).

(** An argument of [log.Println] / [log.Printf] / [log.Fatal]. *)
Inductive LogArg : Type :=
| VStr (s : string)
| VErr (e : error)
| VMember (m : Member)
| VMembers (ms : list Member).

Inductive Event : Type :=
| EvLog (args : list LogArg)
| EvHttp (req : Request) (res : HttpResult)
| EvMkdirAll (dir : string) (perm : Z) (err : option error)
| EvCreate (path : string) (err : option error)
| EvFprintf (path : string) (content : string)
| EvClose (path : string).

Definition Trace : Type := list Event.

(** The outside world.  The answers of the network and of the file system
    take the trace so far: the same request may be answered differently at
    different moments of a run.  The library functions the sources call
    ([http.NewRequest], [json.Decoder.Decode], [path.Dir]) are taken as they
    are, as functions of their arguments. *)
Record Env : Type := mkEnv {
  (** the flag [--drop-in-file] *)
  dropInFile : string;
  path_Dir : string → string;
  (** [http.NewRequest(method, url, nil)]: [None] when the request is built *)
  http_NewRequest : Verb → string → option error;
  httpClient : Trace → Request → HttpResult;
  (** [jresp] after [Decode(&jresp)], for [var jresp map[string]string] *)
  decode_health : string → gmap string string;
  (** [jresp] after [Decode(&jresp)], for [var jresp map[string][]jsonMember] *)
  decode_members : string → gmap string (list Json.jsonMember);
  os_MkdirAll : Trace → string → Z → option error;
  os_Create : Trace → string → option error
}.

(** How a computation ends: it returns, the process exits ([os.Exit], and
    [log.Fatal] which exits with status 1), or it panics. *)
Inductive Outcome (A : Type) : Type :=
| Ret (a : A)
| Exit (code : Z)
| Panic (e : error).
Arguments Ret {A} a.
Arguments Exit {A} code.
Arguments Panic {A} e.

Definition M (A : Type) : Type := Trace → Outcome A * Trace.

Definition ret {A} (a : A) : M A := λ t, (Ret a, t).

Definition bind {A B} (m : M A) (k : A → M B) : M B := λ t,
  match m t with
  | (Ret a, t') => k a t'
  | (Exit c, t') => (Exit c, t')
  | (Panic e, t') => (Panic e, t')
  end.

Declare Scope prog_scope.
Delimit Scope prog_scope with prog.
Notation "x <- m ;; k" := (bind m (λ x, k))
  (at level 100, m at next level, right associativity) : prog_scope.
Notation "m ;; k" := (bind m (λ _, k))
  (at level 100, right associativity) : prog_scope.
Bind Scope prog_scope with M.

Definition emit (e : Event) : M unit := λ t, (Ret tt, t ++ [e]).

Definition log_Println (args : list LogArg) : M unit := emit (EvLog args).
Definition log_Printf (format : string) (args : list LogArg) : M unit :=
  emit (EvLog (VStr format :: args)).
Definition log_Fatal {A} (e : error) : M A := λ t, (Exit 1, t ++ [EvLog [VErr e]]).
Definition os_Exit {A} (code : Z) : M A := λ t, (Exit code, t).
Definition panic {A} (e : error) : M A := λ t, (Panic e, t).

(** [for _, x := range l { body x }] for a body without [return], [break] or
    [continue]. *)
Fixpoint for_range {A} (l : list A) (body : A → M unit) : M unit :=
  match l with
  | [] => ret tt
  | x :: l' => (body x ;; for_range l' body)%prog
  end.

(** ** Package [etcdclient]: operations *)

Module etcdclient.
Section Client.
Context (env : Env).

Definition httpClient_Do (req : Request) : M HttpResult := λ t,
  (Ret (httpClient env t req), t ++ [EvHttp req (httpClient env t req)]).

Definition httpClient_Get (u : string) : M HttpResult :=
  httpClient_Do (mkRequest GET u EmptyString EmptyString).

Definition httpClient_Post (u contentType body : string) : M HttpResult :=
  httpClient_Do (mkRequest POST u contentType body).

(** [func (c *Client) FindHealthyMember(members []Member) (Member, error)] *)
Fixpoint FindHealthyMember (members : list Member) : M (Member * option error) :=
  match members with
  | [] => ret (Member_zero, Some "No healthy member found")
  | member :: rest =>
    let url := ClientURL member +:+ "/health" in
    (log_Println [VStr "Checking etcd member health at"; VStr url] ;;
     r <- httpClient_Get url ;;
     match r with
     | HttpErr err =>
       log_Println [VErr err] ;;
       FindHealthyMember rest
     | HttpResp resp =>
       let jresp := decode_health env (Body resp) in
       if decide (jresp !!! "health" ≠ "true") then
         log_Printf ("Unhealthy member %#v" +:+ LF) [VMember member] ;;
         FindHealthyMember rest
       else
         log_Println [VStr ("Healthy member %#v" +:+ LF); VMember member] ;;
         ret (member, None)
     end)%prog
  end.

(** [func (c *Client) RemoveMember(hm Member, rm Member) error] *)
Definition RemoveMember (hm rm : Member) : M (option error) :=
  (log_Println [VStr "Removing member"; VMember rm] ;;
   let url := ClientURL hm +:+ "/v2/members/" +:+ ID rm in
   match http_NewRequest env DELETE url with
   | Some err => ret (Some err)
   | None =>
     r <- httpClient_Do (mkRequest DELETE url EmptyString EmptyString) ;;
     match r with
     | HttpErr err => ret (Some err)
     | HttpResp resp =>
       log_Println [VStr "Member removed"] ;;
       ret None
     end
   end)%prog.

(** [func (c *Client) AddMember(hm Member, am Member) error] *)
Definition AddMember (hm am : Member) : M (option error) :=
  (log_Println [VStr "Adding member"; VMember am] ;;
   let url := ClientURL hm +:+ "/v2/members" in
   let byteData :=
     "{" +:+ DQUOTE +:+ "name" +:+ DQUOTE +:+ ": " +:+ DQUOTE +:+ Name am
     +:+ DQUOTE +:+ ", " +:+ DQUOTE +:+ "peerURLs" +:+ DQUOTE +:+ ": ["
     +:+ DQUOTE +:+ PeerURL am +:+ DQUOTE +:+ "]}" in
   r <- httpClient_Post url "application/json" byteData ;;
   match r with
   | HttpErr err => ret (Some err)
   | HttpResp resp =>
     log_Println [VStr "Member added"] ;;
     ret None
   end)%prog.

(** The body of the loop of [ListMembers]: one [Member] from one decoded
    element. *)
Definition member_of_json (jm : Json.jsonMember) : Member :=
  let m := mkMember (Json.Id jm) (Json.Name jm) EmptyString EmptyString in
  let m :=
    if decide (0 < length (Json.ClientURLs jm))%nat
    then mkMember (ID m) (Name m) (default EmptyString (Json.ClientURLs jm !! 0%nat)) (PeerURL m)
    else m in
  let m :=
    if decide (0 < length (Json.PeerURLs jm))%nat
    then mkMember (ID m) (Name m) (ClientURL m) (default EmptyString (Json.PeerURLs jm !! 0%nat))
    else m in
  m.

(** [func (c *Client) ListMembers(hm Member) ([]Member, error)] *)
Definition ListMembers (hm : Member) : M (list Member * option error) :=
  (let url := ClientURL hm +:+ "/v2/members" in
   log_Println [VStr "Listing members using url"; VStr url] ;;
   let members := [] in
   r <- httpClient_Get url ;;
   match r with
   | HttpErr err => ret (members, Some err)
   | HttpResp resp =>
     let jresp := decode_members env (Body resp) in
     let members :=
       fold_left (λ members jm, members ++ [member_of_json jm])
                 (jresp !!! "members") members in
     log_Println [VStr "Found members"; VMembers members] ;;
     ret (members, None)
   end)%prog.

(** [ListMembers] as it was in the earlier revision of the package.  There
    the fields of [jsonMember] are not exported ([id], [name], [clientURLs],
    [peerURLs]), and [encoding/json] leaves fields that are not exported
    alone: whatever the body says, every element of the decoded array is
    the zero value of the struct, with nil URL arrays.  The array itself is
    decoded as in the current revision, element for element. *)
Definition unexported (jm : Json.jsonMember) : Json.jsonMember :=
  Json.mk EmptyString EmptyString [] [].

Definition decode_members_rev0 (body : string) : gmap string (list Json.jsonMember) :=
  (λ js : list Json.jsonMember, unexported <$> js) <$> decode_members env body.

(** The loop of the earlier revision: the two URL arrays are indexed without
    a test of their length, and the struct literal evaluates
    [jm.clientURLs[0]] before [jm.peerURLs[0]]. *)
Fixpoint ListMembers_rev0_loop (js : list Json.jsonMember) (members : list Member)
    : M (list Member) :=
  match js with
  | [] => ret members
  | jm :: rest =>
    match Json.ClientURLs jm !! 0%nat, Json.PeerURLs jm !! 0%nat with
    | Some c, Some p =>
      ListMembers_rev0_loop rest
        (members ++ [mkMember (Json.Id jm) (Json.Name jm) c p])
    | _, _ => panic "runtime error: index out of range [0] with length 0"
    end
  end.

Definition ListMembers_rev0 (hm : Member) : M (list Member * option error) :=
  (let url := ClientURL hm +:+ "/v2/members" in
   log_Println [VStr "Listing members using url"; VStr url] ;;
   r <- httpClient_Get url ;;
   match r with
   | HttpErr err => ret ([], Some err)
   | HttpResp resp =>
     let jresp := decode_members_rev0 (Body resp) in
     members <- ListMembers_rev0_loop (jresp !!! "members") [] ;;
     log_Println [VStr "Found members"; VMembers members] ;;
     ret (members, None)
   end)%prog.

End Client.
End etcdclient.

(** ** Package [main]: the reconciler *)

Import etcdclient.

(** The closure [Expected] of [RemoveStaleMembers]. *)
Fixpoint Expected (expectedMembers : list Member) (exiM : Member) : bool :=
  match expectedMembers with
  | [] => false
  | expM :: rest =>
    if decide (Name exiM = Name expM) then true else Expected rest exiM
  end.

Section Reconciler.
Context (env : Env).

(** [func RemoveStaleMembers(c, hm, expectedMembers, existingMembers)] *)
Definition RemoveStaleMembers (hm : Member)
    (expectedMembers existingMembers : list Member) : M unit :=
  for_range existingMembers (λ exiM,
    if negb (Expected expectedMembers exiM) then
      (err <- RemoveMember env hm exiM ;;
       match err with
       | Some e => log_Fatal e
       | None => ret tt
       end)%prog
    else ret tt).

(** [func GetMyself(expectedMembers []etcdclient.Member, insId string)] *)
Fixpoint GetMyself (expectedMembers : list Member) (insId : string) : M Member :=
  match expectedMembers with
  | [] => panic ("Couldn't find instance in expected members" +:+ insId)
  | member :: rest =>
    if decide (Name member = insId) then ret member else GetMyself rest insId
  end.

(** [func MaybeAddMyself(c, hm, existingMembers, myself)] *)
Definition MaybeAddMyself (hm : Member) (existingMembers : list Member)
    (myself : Member) : M unit :=
  let exists_ :=
    fold_left (λ (exists_ : bool) member,
                 if decide (Name member = Name myself) then true else exists_)
              existingMembers false in
  if negb exists_ then
    (err <- AddMember env hm myself ;;
     match err with
     | Some e => log_Fatal e
     | None => ret tt
     end)%prog
  else ret tt.

(** [os.MkdirAll(dir, perm)] and [os.Create(path)], asked of the environment. *)
Definition call_MkdirAll (dir : string) (perm : Z) : M (option error) := λ t,
  (Ret (os_MkdirAll env t dir perm), t ++ [EvMkdirAll dir perm (os_MkdirAll env t dir perm)]).

Definition call_Create (path : string) : M (option error) := λ t,
  (Ret (os_Create env t path), t ++ [EvCreate path (os_Create env t path)]).

(** The text [WriteDropIn] hands to [fmt.Fprintf]. *)
Definition dropIn_text (initCluster state : string) : string :=
  "[Service]" +:+ LF +:+
  "Environment=ETCD_INITIAL_CLUSTER=" +:+ initCluster +:+ LF +:+
  "Environment=ETCD_INITIAL_CLUSTER_STATE=" +:+ state +:+ LF.

(** [func WriteDropIn(expectedMembers []etcdclient.Member, state string)] *)
Definition WriteDropIn (expectedMembers : list Member) (state : string) : M unit :=
  let initCluster :=
    fold_left (λ initCluster member,
                 initCluster ++ [Name member +:+ "=" +:+ PeerURL member])
              expectedMembers [] in
  (err <- call_MkdirAll (path_Dir env (dropInFile env)) 511 ;;
   match err with
   | Some e => log_Fatal e
   | None =>
     err <- call_Create (dropInFile env) ;;
     match err with
     | Some e => log_Fatal e
     | None =>
       emit (EvFprintf (dropInFile env)
               (dropIn_text (strings_Join initCluster ",") state)) ;;
       emit (EvClose (dropInFile env))
     end
   end)%prog.

(** [func main()], from the call of [FindHealthyMember] on: the expected
    roster and the instance identity have been obtained from the inventory
    and the admin client has been built. *)
Definition main (expectedMembers : list Member) (InstanceID : string) : M unit :=
  (r <- FindHealthyMember env expectedMembers ;;
   let (healthyMember, err) := r in
   match err with
   | Some e =>
     log_Println [VErr e] ;;
     WriteDropIn expectedMembers "new" ;;
     os_Exit 0
   | None =>
     r <- ListMembers env healthyMember ;;
     let (existingMembers, err) := r in
     match err with
     | Some e =>
       log_Println [VErr e] ;;
       WriteDropIn expectedMembers "new" ;;
       os_Exit 0
     | None =>
       RemoveStaleMembers healthyMember expectedMembers existingMembers ;;
       myself <- GetMyself expectedMembers InstanceID ;;
       MaybeAddMyself healthyMember existingMembers myself ;;
       WriteDropIn expectedMembers "existing"
     end
   end)%prog.

End Reconciler.

(** ** Reading a trace *)

(** The member a [RemoveMember] call was made for: the call announces itself
    in the log before doing anything else. *)
Definition removeMember_call (e : Event) : option Member :=
  match e with
  | EvLog [VStr s; VMember rm] =>
    if decide (s = "Removing member") then Some rm else None
  | _ => None
  end.

(** The member an [AddMember] call was made for. *)
Definition addMember_call (e : Event) : option Member :=
  match e with
  | EvLog [VStr s; VMember am] =>
    if decide (s = "Adding member") then Some am else None
  | _ => None
  end.

Definition http_request (e : Event) : option Request :=
  match e with
  | EvHttp req _ => Some req
  | _ => None
  end.

(** A request that edits the membership of the cluster: anything but a GET. *)
Definition mutation (e : Event) : option Request :=
  match e with
  | EvHttp req _ => match verb req with GET => None | _ => Some req end
  | _ => None
  end.

(** What was written to which file. *)
Definition directive (e : Event) : option (string * string) :=
  match e with
  | EvFprintf path content => Some (path, content)
  | _ => None
  end.

Definition removeMember_calls (t : Trace) : list Member := omap removeMember_call t.
Definition addMember_calls (t : Trace) : list Member := omap addMember_call t.
Definition http_requests (t : Trace) : list Request := omap http_request t.
Definition mutations (t : Trace) : list Request := omap mutation t.
Definition directives (t : Trace) : list (string * string) := omap directive t.

(** The requests and their answers, in order. *)
Definition exchange (e : Event) : option (Request * HttpResult) :=
  match e with
  | EvHttp req res => Some (req, res)
  | _ => None
  end.
Definition exchanges (t : Trace) : list (Request * HttpResult) := omap exchange t.

(** The health probe of a candidate, and whether an answer to it asserts
    health. *)
Definition health_probe (m : Member) : Request :=
  mkRequest GET (ClientURL m +:+ "/health") EmptyString EmptyString.

Definition asserts_health (env : Env) (res : HttpResult) : bool :=
  match res with
  | HttpErr _ => false
  | HttpResp resp => bool_decide (decode_health env (Body resp) !!! "health" = "true")
  end.

(** The list request sent to a member. *)
Definition list_request (hm : Member) : Request :=
  mkRequest GET (ClientURL hm +:+ "/v2/members") EmptyString EmptyString.

(** The requests the two editing operations send. *)
Definition delete_request (hm rm : Member) : Request :=
  mkRequest DELETE (ClientURL hm +:+ "/v2/members/" +:+ ID rm) EmptyString EmptyString.

Definition add_request (hm am : Member) : Request :=
  mkRequest POST (ClientURL hm +:+ "/v2/members") "application/json"
    ("{" +:+ DQUOTE +:+ "name" +:+ DQUOTE +:+ ": " +:+ DQUOTE +:+ Name am
     +:+ DQUOTE +:+ ", " +:+ DQUOTE +:+ "peerURLs" +:+ DQUOTE +:+ ": ["
     +:+ DQUOTE +:+ PeerURL am +:+ DQUOTE +:+ "]}").

(** The peer list of the directive: [name=peerURL] of every member, joined
    by commas. *)
Definition peer_list (roster : list Member) : string :=
  strings_Join (map (λ m, Name m +:+ "=" +:+ PeerURL m) roster) ",".

(** The stale members: those of the actual roster whose name no member of
    the expected roster bears, in the actual roster's order. *)
Definition stale (expected actual : list Member) : list Member :=
  filter (λ m, Name m ∉ Name <$> expected) actual.

(** Events that neither call an editing operation, nor send an editing
    request, nor write the directive. *)
Definition quiet (evs : Trace) : Prop :=
  removeMember_calls evs = [] ∧ addMember_calls evs = [] ∧
  mutations evs = [] ∧ directives evs = [].

(** The file system lets [WriteDropIn], started after [t], create the
    directory and the file. *)
Definition writable (env : Env) (t : Trace) : Prop :=
  os_MkdirAll env t (path_Dir env (dropInFile env)) 511 = None ∧
  os_Create env (t ++ [EvMkdirAll (path_Dir env (dropInFile env)) 511 None])
            (dropInFile env) = None.

(** The directive for a roster and a mode: the drop-in file and its text. *)
Definition directive_of (env : Env) (expected : list Member) (mode : string)
    : string * string :=
  (dropInFile env, dropIn_text (peer_list expected) mode).

(** What [main] does when the discovery of the cluster fails, after it has
    logged the error. *)
Definition fallback (env : Env) (expected : list Member) : M unit :=
  (WriteDropIn env expected "new" ;; os_Exit 0)%prog.

(** What follows the pruning in [main]. *)
Definition ensure_self (env : Env) (hm : Member) (expected actual : list Member)
    (InstanceID : string) : M unit :=
  (myself <- GetMyself expected InstanceID ;;
   MaybeAddMyself env hm actual myself ;;
   WriteDropIn env expected "existing")%prog.

(** ** A family of concrete worlds

    [world healthy roster status fs_ok]: the members whose client URL is in
    [healthy] answer the health probe with a payload asserting health and
    answer the list request with [roster] ([None]: the list request fails in
    transport); every other GET fails in transport; POST and DELETE complete
    with [status]; the file system works when [fs_ok]. *)
Definition world (healthy : list string) (roster : option (list Json.jsonMember))
    (status : Z) (fs_ok : bool) : Env :=
  {| dropInFile := "/run/etcd2.service.d/50-etcdmate.conf";
     path_Dir := λ _, "/run/etcd2.service.d";
     http_NewRequest := λ _ _, None;
     httpClient := λ _ req,
       match verb req with
       | GET =>
         if bool_decide (url req ∈ (λ u, u +:+ "/health") <$> healthy)
         then HttpResp (mkResponse 200 "H")
         else if bool_decide (url req ∈ (λ u, u +:+ "/v2/members") <$> healthy)
         then match roster with
              | Some _ => HttpResp (mkResponse 200 "M")
              | None => HttpErr "timeout"
              end
         else HttpErr "connection refused"
       | _ => HttpResp (mkResponse status EmptyString)
       end;
     decode_health := λ body,
       if bool_decide (body = "H") then {[ "health" := "true" ]} else ∅;
     decode_members := λ body,
       match roster with
       | Some r => if bool_decide (body = "M") then {[ "members" := r ]} else ∅
       | None => ∅
       end;
     os_MkdirAll := λ _ _ _, if fs_ok then None else Some "read-only file system";
     os_Create := λ _ _, if fs_ok then None else Some "read-only file system" |}.

Definition mA : Member := mkMember EmptyString "i-a" "http://10.0.0.1:2379" "http://10.0.0.1:2380".
Definition mB : Member := mkMember EmptyString "i-b" "http://10.0.0.2:2379" "http://10.0.0.2:2380".
Definition jA : Json.jsonMember := Json.mk "1a" "i-a" ["http://10.0.0.1:2379"] ["http://10.0.0.1:2380"].
Definition jB : Json.jsonMember := Json.mk "2b" "i-b" ["http://10.0.0.2:2379"] ["http://10.0.0.2:2380"].
Definition jC : Json.jsonMember := Json.mk "3c" "i-c" ["http://10.0.0.3:2379"] ["http://10.0.0.3:2380"].


Definition jA_drifted : Json.jsonMember :=
  Json.mk "1a" "i-a" ["http://10.9.9.9:2379"] ["http://10.9.9.9:2380"].
(** A member in the middle of joining: the cluster has no URL for it yet. *)
Definition jD : Json.jsonMember := Json.mk "4d" "i-d" [] [].

Definition mA' : Member := mkMember "1a" "i-a" "http://10.0.0.1:2379" "http://10.0.0.1:2380".
Definition mB' : Member := mkMember "2b" "i-b" "http://10.0.0.2:2379" "http://10.0.0.2:2380".
Definition mC' : Member := mkMember "3c" "i-c" "http://10.0.0.3:2379" "http://10.0.0.3:2380".

(** Member A is healthy and lists A and B: the cluster has converged. *)
Definition converged : Env := world ["http://10.0.0.1:2379"] (Some [jA; jB]) 204 true.
(** Member A is healthy and lists A (at URLs that differ from the
    inventory's), B and a stale C. *)
Definition with_stale : Env :=
  world ["http://10.0.0.1:2379"] (Some [jA_drifted; jB; jC]) 204 true.
(** Member A is healthy and lists only itself; edits complete with [status]. *)
Definition only_A (status : Z) : Env := world ["http://10.0.0.1:2379"] (Some [jA]) status true.
(** Member A is healthy and lists A and the joining D. *)
Definition with_joining : Env := world ["http://10.0.0.1:2379"] (Some [jA; jD]) 204 true.
(** Nobody answers. *)
Definition nobody : Env := world [] None 204 true.

(** The trace of a run of [converged], [with_stale] and [only_A] up to the
    answer of the healthy member A, and then up to its list of members. *)
Definition probed_A : Trace :=
  Eval vm_compute in (FindHealthyMember converged [mA; mB] []).2.
Definition listed (env : Env) : Trace := (ListMembers env mA probed_A).2.
Definition probed_nobody : Trace :=
  Eval vm_compute in (FindHealthyMember nobody [mA; mB] []).2.

(** ** Package [etcdclient]: [NewClient]

    What [NewClient] builds is kept as data: the TLS configuration, and the
    HTTP client with its timeout and, possibly, a transport of its own.  The
    files are read through the environment below; [NewClient] logs nothing. *)

Module client.

Record tlsConfig : Type := mkTls {
  Certificates : list string;
  RootCAs : option (list string)
}.

Record httpClient : Type := mkHttp {
  Timeout : Z;
  Transport : option tlsConfig
}.

(** [type Client struct { httpClient *http.Client }]: [None] is the nil
    pointer of the zero value [Client{}]. *)
Record Client : Type := mkClient {
  http : option httpClient
}.

Record Files : Type := mkFiles {
  (** [tls.LoadX509KeyPair(certFile, keyFile)] *)
  LoadX509KeyPair : string → string → string + error;
  (** [ioutil.ReadFile(name)] *)
  ReadFile : string → string + error;
  (** the certificates [AppendCertsFromPEM] finds in the bytes it is given;
      the boolean it returns is dropped by the caller *)
  AppendCertsFromPEM : string → list string
}.

(** [func NewClient(caFile, certFile, keyFile string, timeout time.Duration)
    (Client, error)] *)
Definition NewClient (fs : Files) (caFile certFile keyFile : string) (timeout : Z)
    : Client * option error :=
  let tls0 := mkTls [] None in
  let step1 : tlsConfig + error :=
    if decide (certFile ≠ EmptyString ∧ keyFile ≠ EmptyString) then
      match LoadX509KeyPair fs certFile keyFile with
      | inr err => inr err
      | inl cert => inl (mkTls [cert] (RootCAs tls0))
      end
    else inl tls0 in
  match step1 with
  | inr err => (mkClient None, Some err)
  | inl tls1 =>
    let step2 : tlsConfig + error :=
      if decide (caFile ≠ EmptyString) then
        match ReadFile fs caFile with
        | inr err => inr err
        | inl caCert =>
          inl (mkTls (Certificates tls1) (Some (AppendCertsFromPEM fs caCert)))
        end
      else inl tls1 in
    match step2 with
    | inr err => (mkClient None, Some err)
    | inl tls2 =>
      let httpClient := mkHttp timeout None in
      let httpClient :=
        if decide (caFile ≠ EmptyString ∨ certFile ≠ EmptyString)
        then mkHttp (Timeout httpClient) (Some tls2)
        else httpClient in
      (mkClient (Some httpClient), None)
    end
  end.

End client.

(** ** Package [main]: the inventory

    [GetAsg], [GetAsgInstanceIds], [GetEC2Instances] and
    [GetExpectedMembers] ask the cloud provider which instances make up the
    cluster.  They run before any call to the cluster, on a trace of their
    own: the log lines and the three requests.  The fields the SDK gives as
    [*string] are options, and reading through a nil one panics. *)

Module inventory.

(** [autoscaling.InstanceDetails], as far as it is read *)
Record InstanceDetails : Type := mkDetails {
  AutoScalingGroupName : option string
}.

(** [autoscaling.Instance], as far as it is read *)
Record asgInstance : Type := mkAsgInstance {
  asg_InstanceId : option string;
  LifecycleState : option string
}.

(** [autoscaling.Group], as far as it is read *)
Record Group : Type := mkGroup {
  Instances : list asgInstance
}.

(** [ec2.Instance], as far as it is read *)
Record ec2Instance : Type := mkEc2Instance {
  InstanceId : option string;
  PrivateIpAddress : option string
}.

(** [ec2.Reservation], as far as it is read *)
Record Reservation : Type := mkReservation {
  res_Instances : list ec2Instance
}.

Inductive Arg : Type :=
| AStr (s : string)
| AInstance (i : asgInstance)
| AMembers (ms : list Member).

Inductive InvEvent : Type :=
| InvLog (args : list Arg)
| InvDescribeAutoScalingInstances (InstanceIds : list string) (MaxRecords : Z)
| InvDescribeAutoScalingGroups (AutoScalingGroupNames : list string) (MaxRecords : Z)
| InvDescribeInstances (InstanceIds : list (option string)).

(** The provider, and the flags the URLs are derived with. *)
Record Cloud : Type := mkCloud {
  DescribeAutoScalingInstances : list string → Z → list InstanceDetails + error;
  DescribeAutoScalingGroups : list string → Z → list Group + error;
  DescribeInstances : list (option string) → list Reservation + error;
  clientSchema : string;
  clientPort : Z;
  peerSchema : string;
  peerPort : Z
}.

Definition Inv (A : Type) : Type := list InvEvent → Outcome A * list InvEvent.

Definition iret {A} (a : A) : Inv A := λ t, (Ret a, t).

Definition ibind {A B} (m : Inv A) (k : A → Inv B) : Inv B := λ t,
  match m t with
  | (Ret a, t') => k a t'
  | (Exit c, t') => (Exit c, t')
  | (Panic e, t') => (Panic e, t')
  end.

Declare Scope inv_scope.
Delimit Scope inv_scope with inv.
Notation "x <- m ;; k" := (ibind m (λ x, k))
  (at level 100, m at next level, right associativity) : inv_scope.
Notation "m ;; k" := (ibind m (λ _, k))
  (at level 100, right associativity) : inv_scope.

Definition ilog (args : list Arg) : Inv unit := λ t, (Ret tt, t ++ [InvLog args]).
Definition ipanic {A} (e : error) : Inv A := λ t, (Panic e, t).

Definition nil_dereference : error :=
  "runtime error: invalid memory address or nil pointer dereference".
Definition index_out_of_range : error :=
  "runtime error: index out of range [0] with length 0".

(** [*p] *)
Definition deref {A} (p : option A) : Inv A :=
  match p with
  | Some a => iret a
  | None => ipanic nil_dereference
  end.

(** [l[0]] *)
Definition first {A} (l : list A) : Inv A :=
  match l with
  | a :: _ => iret a
  | [] => ipanic index_out_of_range
  end.

Section Inventory.
Context (cloud : Cloud).

(** [func GetAsg(svc *autoscaling.AutoScaling, insId string) (string, error)] *)
Definition GetAsg (insId : string) : Inv (string * option error) :=
  (ilog [AStr "Looking for Autoscaling group of instance"; AStr insId] ;;
   r <- (λ t, (Ret (DescribeAutoScalingInstances cloud [insId] 1),
               t ++ [InvDescribeAutoScalingInstances [insId] 1])) ;;
   match r with
   | inr err => iret (EmptyString, Some err)
   | inl resp =>
     d <- first resp ;;
     let asgName := AutoScalingGroupName d in
     name <- deref asgName ;;
     ilog [AStr "Found Autoscaling group"; AStr name] ;;
     name <- deref asgName ;;
     iret (name, None)
   end)%inv.

(** The loop of [GetAsgInstanceIds]. *)
Fixpoint GetAsgInstanceIds_loop (instances : list asgInstance)
    (instanceIds : list (option string)) : Inv (list (option string)) :=
  match instances with
  | [] => iret instanceIds
  | instance :: rest =>
    (ilog [AStr ("Found instance %+v" +:+ LF); AInstance instance] ;;
     state <- deref (LifecycleState instance) ;;
     if decide (state = "InService") then
       GetAsgInstanceIds_loop rest (instanceIds ++ [asg_InstanceId instance])
     else
       id <- deref (asg_InstanceId instance) ;;
       ilog [AStr "Ignoring instance"; AStr id] ;;
       GetAsgInstanceIds_loop rest instanceIds)%inv
  end.

(** [func GetAsgInstanceIds(svc *autoscaling.AutoScaling, asgName string)
    ([]*string, error)] *)
Definition GetAsgInstanceIds (asgName : string) : Inv (list (option string) * option error) :=
  (ilog [AStr "Looking for instances in Autoscaling group"; AStr asgName] ;;
   r <- (λ t, (Ret (DescribeAutoScalingGroups cloud [asgName] 1),
               t ++ [InvDescribeAutoScalingGroups [asgName] 1])) ;;
   match r with
   | inr err => iret ([], Some err)
   | inl resp =>
     g <- first resp ;;
     instanceIds <- GetAsgInstanceIds_loop (Instances g) [] ;;
     iret (instanceIds, None)
   end)%inv.

(** [func GetEC2Instances(sess *session.Session, instanceIds []*string)
    ([]ec2.Instance, error)] *)
Definition GetEC2Instances (instanceIds : list (option string))
    : Inv (list ec2Instance * option error) :=
  (r <- (λ t, (Ret (DescribeInstances cloud instanceIds),
               t ++ [InvDescribeInstances instanceIds])) ;;
   match r with
   | inr err => iret ([], Some err)
   | inl resp =>
     let instances :=
       fold_left (λ instances reservation,
                    fold_left (λ instances instance, instances ++ [instance])
                              (res_Instances reservation) instances)
                 resp [] in
     iret (instances, None)
   end)%inv.

(** The loop of [GetExpectedMembers]: the fields of the struct literal are
    evaluated in the order they are written. *)
Fixpoint GetExpectedMembers_loop (instances : list ec2Instance)
    (etcdMembers : list Member) : Inv (list Member) :=
  match instances with
  | [] => iret etcdMembers
  | instance :: rest =>
    (name <- deref (InstanceId instance) ;;
     ip <- deref (PrivateIpAddress instance) ;;
     let clientURL :=
       clientSchema cloud +:+ "://" +:+ ip +:+ ":" +:+ pretty (clientPort cloud) in
     ip <- deref (PrivateIpAddress instance) ;;
     let peerURL :=
       peerSchema cloud +:+ "://" +:+ ip +:+ ":" +:+ pretty (peerPort cloud) in
     GetExpectedMembers_loop rest
       (etcdMembers ++ [mkMember EmptyString name clientURL peerURL]))%inv
  end.

(** [func GetExpectedMembers(sess *session.Session, insId string)
    ([]etcdclient.Member, error)] *)
Definition GetExpectedMembers (insId : string) : Inv (list Member * option error) :=
  (let etcdMembers := [] in
   r <- GetAsg insId ;;
   let (asgName, err) := r in
   match err with
   | Some e => iret (etcdMembers, Some e)
   | None =>
     r <- GetAsgInstanceIds asgName ;;
     let (instanceIds, err) := r in
     match err with
     | Some e => iret (etcdMembers, Some e)
     | None =>
       r <- GetEC2Instances instanceIds ;;
       let (instances, err) := r in
       match err with
       | Some e => iret (etcdMembers, Some e)
       | None =>
         etcdMembers <- GetExpectedMembers_loop instances etcdMembers ;;
         ilog [AStr ("Expected Members %+v" +:+ LF); AMembers etcdMembers] ;;
         iret (etcdMembers, None)
       end
     end
   end)%inv.

End Inventory.

(** The member derived from an instance identity and its private address. *)
Definition derived_member (cloud : Cloud) (id ip : string) : Member :=
  mkMember EmptyString id
    (clientSchema cloud +:+ "://" +:+ ip +:+ ":" +:+ pretty (clientPort cloud))
    (peerSchema cloud +:+ "://" +:+ ip +:+ ":" +:+ pretty (peerPort cloud)).

(** An instance of a group that is in service. *)
Definition in_service (i : asgInstance) : Prop := LifecycleState i = Some "InService".

(** The requests sent to the provider, in order. *)
Definition request (e : InvEvent) : option InvEvent :=
  match e with
  | InvLog _ => None
  | _ => Some e
  end.
Definition requests (t : list InvEvent) : list InvEvent := omap request t.

End inventory.

(** Member A is healthy and answers the list request with a body in which
    no member list is found. *)
Definition garbled : Env :=
  mkEnv (dropInFile (only_A 200)) (path_Dir (only_A 200))
        (http_NewRequest (only_A 200)) (httpClient (only_A 200))
        (decode_health (only_A 200)) (λ _, ∅)
        (os_MkdirAll (only_A 200)) (os_Create (only_A 200)).

(** A provider that knows the group [etcd] with the instances A and B in
    service and T on its way out; [address_B] is the private address of B,
    if it has one, and [groups_fail] makes the groups request fail. *)
Definition provider (address_B : option string) (groups_fail : bool) : inventory.Cloud :=
  inventory.mkCloud
    (λ _ _, inl [inventory.mkDetails (Some "etcd")])
    (λ _ _,
       if groups_fail then inr "Throttling"
       else inl [inventory.mkGroup
                   [inventory.mkAsgInstance (Some "i-a") (Some "InService");
                    inventory.mkAsgInstance (Some "i-t") (Some "Terminating");
                    inventory.mkAsgInstance (Some "i-b") (Some "InService")]])
    (λ _, inl [inventory.mkReservation
                 [inventory.mkEc2Instance (Some "i-a") (Some "10.0.0.5")];
               inventory.mkReservation
                 [inventory.mkEc2Instance (Some "i-b") address_B]])
    "https" 2379 "http" 2380.

(** Files that can all be read. *)
Definition readable : client.Files :=
  client.mkFiles (λ certFile keyFile, inl (certFile +:+ "+" +:+ keyFile))
                 (λ _, inl "PEM") (λ _, ["ca"]).

(** As [with_stale], but every POST and DELETE is refused with status 500. *)
Definition refusing : Env :=
  world ["http://10.0.0.1:2379"] (Some [jA_drifted; jB; jC]) 500 true.

(** An environment in which nothing the run needs fails: DELETE requests
    can be built, every request that is not a GET gets a response, and the
    drop-in file can always be created. *)
Definition cooperative (env : Env) : Prop :=
  (∀ u, http_NewRequest env DELETE u = None) ∧
  (∀ t req, verb req ≠ GET → ∃ resp, httpClient env t req = HttpResp resp) ∧
  (∀ t, writable env t).


(** * Properties *)

(** ** The monad and the trace *)

Lemma bind_Ret {A B} (m : M A) (k : A → M B) t a t' :
  m t = (Ret a, t') → bind m k t = k a t'.
Proof. unfold bind. by intros ->. Qed.

Lemma bind_Exit {A B} (m : M A) (k : A → M B) t c t' :
  m t = (Exit c, t') → bind m k t = (Exit c, t').
Proof. unfold bind. by intros ->. Qed.

Lemma bind_Panic {A B} (m : M A) (k : A → M B) t e t' :
  m t = (Panic e, t') → bind m k t = (Panic e, t').
Proof. unfold bind. by intros ->. Qed.

Lemma bind_emit {B} (e : Event) (k : unit → M B) t :
  bind (emit e) k t = k tt (t ++ [e]).
Proof. reflexivity. Qed.

Lemma bind_log_Println {B} args (k : unit → M B) t :
  bind (log_Println args) k t = k tt (t ++ [EvLog args]).
Proof. reflexivity. Qed.

Lemma bind_Do {B} env req (k : HttpResult → M B) t :
  bind (httpClient_Do env req) k t
  = k (httpClient env t req) (t ++ [EvHttp req (httpClient env t req)]).
Proof. reflexivity. Qed.

(** ** The admin client *)

Section ClientFacts.
Context (env : Env).

Lemma FindHealthyMember_cons member rest t :
  FindHealthyMember env (member :: rest) t =
  let t1 := t ++ [EvLog [VStr "Checking etcd member health at";
                         VStr (ClientURL member +:+ "/health")]] in
  let res := httpClient env t1 (health_probe member) in
  let t2 := t1 ++ [EvHttp (health_probe member) res] in
  if asserts_health env res then
    (Ret (member, None),
     t2 ++ [EvLog [VStr ("Healthy member %#v" +:+ LF); VMember member]])
  else
    FindHealthyMember env rest
      (t2 ++ [match res with
              | HttpErr err => EvLog [VErr err]
              | HttpResp _ => EvLog [VStr ("Unhealthy member %#v" +:+ LF); VMember member]
              end]).
Proof.
  cbn [FindHealthyMember]. rewrite bind_log_Println.
  unfold httpClient_Get. rewrite bind_Do. fold (health_probe member).
  cbv zeta. destruct (httpClient env _ (health_probe member)) as [err|resp]; cbn [asserts_health].
  - by rewrite bind_log_Println.
  - case_decide as Hh.
    + rewrite bool_decide_eq_false_2 by done. reflexivity.
    + rewrite bool_decide_eq_true_2 by done. reflexivity.
Qed.

Lemma exchanges_app t1 t2 : exchanges (t1 ++ t2) = exchanges t1 ++ exchanges t2.
Proof. apply omap_app. Qed.


Lemma AddMember_run hm am t :
  AddMember env hm am t =
  let t1 := t ++ [EvLog [VStr "Adding member"; VMember am]] in
  let res := httpClient env t1 (add_request hm am) in
  match res with
  | HttpErr e => (Ret (Some e), t1 ++ [EvHttp (add_request hm am) res])
  | HttpResp _ =>
    (Ret None, t1 ++ [EvHttp (add_request hm am) res; EvLog [VStr "Member added"]])
  end.
Proof.
  unfold AddMember. rewrite bind_log_Println. cbv zeta.
  unfold httpClient_Post. rewrite bind_Do. fold (add_request hm am).
  destruct (httpClient env _ (add_request hm am)); cbn; [done|].
  by rewrite <- app_assoc.
Qed.

Lemma RemoveMember_run hm rm t :
  RemoveMember env hm rm t =
  let t1 := t ++ [EvLog [VStr "Removing member"; VMember rm]] in
  match http_NewRequest env DELETE (url (delete_request hm rm)) with
  | Some e => (Ret (Some e), t1)
  | None =>
    let res := httpClient env t1 (delete_request hm rm) in
    match res with
    | HttpErr e => (Ret (Some e), t1 ++ [EvHttp (delete_request hm rm) res])
    | HttpResp _ =>
      (Ret None, t1 ++ [EvHttp (delete_request hm rm) res; EvLog [VStr "Member removed"]])
    end
  end.
Proof.
  unfold RemoveMember. rewrite bind_log_Println. cbv zeta. cbn [url delete_request].
  destruct (http_NewRequest env DELETE _); [done|].
  rewrite bind_Do. fold (delete_request hm rm).
  destruct (httpClient env _ (delete_request hm rm)); cbn; [done|].
  by rewrite <- app_assoc.
Qed.

(** C8, as the code has it.  Neither [AddMember] nor [RemoveMember] looks at
    the status of the response: when the POST, respectively the DELETE,
    completes with a response, whatever its status, the operation returns
    no error. *)
Theorem AddMember_RemoveMember_ignore_status
    (hm am : Member) (t : Trace) (resp : Response)
    (hm' rm : Member) (t' : Trace) (resp' : Response) :
  httpClient env (t ++ [EvLog [VStr "Adding member"; VMember am]])
             (add_request hm am) = HttpResp resp →
  http_NewRequest env DELETE (url (delete_request hm' rm)) = None →
  httpClient env (t' ++ [EvLog [VStr "Removing member"; VMember rm]])
             (delete_request hm' rm) = HttpResp resp' →
  (AddMember env hm am t).1 = Ret None ∧ (RemoveMember env hm' rm t').1 = Ret None.
Proof.
  intros Hadd Hnew Hdel. rewrite AddMember_run, RemoveMember_run. cbv zeta.
  by rewrite Hadd, Hnew, Hdel.
Qed.

(** The other direction: an error is returned exactly when the call did not
    complete (the transport failed, or the DELETE request could not be
    built), and it is that error. *)
Lemma AddMember_error_iff hm am t e :
  (AddMember env hm am t).1 = Ret (Some e) ↔
  httpClient env (t ++ [EvLog [VStr "Adding member"; VMember am]])
             (add_request hm am) = HttpErr e.
Proof.
  rewrite AddMember_run. cbv zeta.
  destruct (httpClient env _ (add_request hm am)); cbn; split; congruence.
Qed.

Lemma RemoveMember_error_iff hm rm t e :
  (RemoveMember env hm rm t).1 = Ret (Some e) ↔
  http_NewRequest env DELETE (url (delete_request hm rm)) = Some e ∨
  (http_NewRequest env DELETE (url (delete_request hm rm)) = None ∧
   httpClient env (t ++ [EvLog [VStr "Removing member"; VMember rm]])
              (delete_request hm rm) = HttpErr e).
Proof.
  rewrite RemoveMember_run. cbv zeta.
  destruct (http_NewRequest env DELETE _); cbn.
  - split; [intros [= ->]; by left|intros [[= ->]|[[=] _]]; done].
  - destruct (httpClient env _ (delete_request hm rm)); cbn.
    + split; [intros [= ->]; by right|intros [[=]|[_ [= ->]]]; done].
    + split; [done|intros [[=]|[_ [=]]]].
Qed.

(** What [ListMembers] makes of one element of the decoded array. *)
Lemma member_of_json_head jm :
  member_of_json jm =
  mkMember (Json.Id jm) (Json.Name jm)
           (default EmptyString (head (Json.ClientURLs jm)))
           (default EmptyString (head (Json.PeerURLs jm))).
Proof.
  unfold member_of_json.
  destruct jm as [i n [|c cs] [|q qs]]; cbn; reflexivity.
Qed.

Lemma fold_left_snoc {A B} (f : A → B) (l : list A) (acc : list B) :
  fold_left (λ acc x, acc ++ [f x]) l acc = acc ++ (f <$> l).
Proof.
  revert acc. induction l as [|x l IH]; intros acc; cbn.
  - by rewrite app_nil_r.
  - by rewrite IH, <- app_assoc.
Qed.

(** C9. When the list request completes, [ListMembers] returns, without
    error and without panicking, one [Member] per element of the decoded
    [members] array, in order: [id] and [name] are copied, each URL field is
    the first entry of the corresponding array, and is empty when that array
    is empty. *)
Theorem ListMembers_tolerates_empty_URLs (hm : Member) (t : Trace) (resp : Response) :
  httpClient env
    (t ++ [EvLog [VStr "Listing members using url"; VStr (url (list_request hm))]])
    (list_request hm) = HttpResp resp →
  ∃ evs,
    ListMembers env hm t =
    (Ret ((λ jm, mkMember (Json.Id jm) (Json.Name jm)
                   (default EmptyString (head (Json.ClientURLs jm)))
                   (default EmptyString (head (Json.PeerURLs jm))))
            <$> (decode_members env (Body resp) !!! "members"),
          None),
     t ++ evs).
Proof.
  intros Hget. unfold ListMembers. cbv zeta. rewrite bind_log_Println.
  unfold httpClient_Get. rewrite bind_Do. fold (list_request hm).
  cbn [url list_request] in Hget. rewrite Hget. rewrite bind_log_Println.
  rewrite fold_left_snoc. cbn [app]. unfold ret.
  eexists. f_equal.
  - do 2 f_equal. apply list_fmap_ext. intros ? jm _. apply member_of_json_head.
  - by rewrite <- !app_assoc.
Qed.

(** [ListMembers] never exits nor panics, whatever is answered. *)
Lemma ListMembers_returns hm t : ∃ r t', ListMembers env hm t = (Ret r, t').
Proof.
  unfold ListMembers. cbv zeta. rewrite bind_log_Println.
  unfold httpClient_Get. rewrite bind_Do.
  destruct (httpClient env _ _); cbn; eauto.
Qed.

End ClientFacts.

(** ** The reconciler *)

Lemma removeMember_calls_app t1 t2 :
  removeMember_calls (t1 ++ t2) = removeMember_calls t1 ++ removeMember_calls t2.
Proof. apply omap_app. Qed.

Lemma addMember_calls_app t1 t2 :
  addMember_calls (t1 ++ t2) = addMember_calls t1 ++ addMember_calls t2.
Proof. apply omap_app. Qed.

Lemma mutations_app t1 t2 : mutations (t1 ++ t2) = mutations t1 ++ mutations t2.
Proof. apply omap_app. Qed.

Lemma directives_app t1 t2 : directives (t1 ++ t2) = directives t1 ++ directives t2.
Proof. apply omap_app. Qed.

Lemma http_requests_app t1 t2 :
  http_requests (t1 ++ t2) = http_requests t1 ++ http_requests t2.
Proof. apply omap_app. Qed.

Lemma quiet_app evs1 evs2 : quiet evs1 → quiet evs2 → quiet (evs1 ++ evs2).
Proof.
  intros (H1 & H2 & H3 & H4) (K1 & K2 & K3 & K4). unfold quiet.
  rewrite removeMember_calls_app, addMember_calls_app, mutations_app, directives_app.
  by rewrite H1, H2, H3, H4, K1, K2, K3, K4.
Qed.

Lemma Expected_spec expected m :
  Expected expected m = true ↔ Name m ∈ Name <$> expected.
Proof.
  induction expected as [|e rest IH]; cbn.
  - split; [done|]. by intros ?%elem_of_nil.
  - rewrite elem_of_cons. case_decide; [by split; [left|]|].
    rewrite IH. split; [by right|]. by intros [?|?].
Qed.

Lemma Expected_false expected m :
  Expected expected m = false ↔ Name m ∉ Name <$> expected.
Proof. rewrite <- Expected_spec. by destruct (Expected expected m). Qed.

Section ReconcilerFacts.
Context (env : Env).

Lemma RemoveStaleMembers_nil hm expected t :
  RemoveStaleMembers env hm expected [] t = (Ret tt, t).
Proof. reflexivity. Qed.

Lemma RemoveStaleMembers_expected hm expected m rest t :
  Name m ∈ Name <$> expected →
  RemoveStaleMembers env hm expected (m :: rest) t
  = RemoveStaleMembers env hm expected rest t.
Proof.
  intros Hin%Expected_spec. unfold RemoveStaleMembers. cbn [for_range].
  by rewrite Hin.
Qed.

Lemma RemoveStaleMembers_stale hm expected m rest t :
  Name m ∉ Name <$> expected →
  RemoveStaleMembers env hm expected (m :: rest) t =
  match RemoveMember env hm m t with
  | (Ret None, t') => RemoveStaleMembers env hm expected rest t'
  | (Ret (Some e), t') => (Exit 1, t' ++ [EvLog [VErr e]])
  | (Exit c, t') => (Exit c, t')
  | (Panic e, t') => (Panic e, t')
  end.
Proof.
  intros Hin%Expected_false. unfold RemoveStaleMembers. cbn [for_range].
  rewrite Hin. cbn [negb]. unfold bind.
  destruct (RemoveMember env hm m t) as [[[e|]| |] t']; reflexivity.
Qed.

(** What [RemoveStaleMembers] leaves in the trace. *)
Lemma RemoveStaleMembers_trace hm expected actual t :
  ∃ evs,
    (RemoveStaleMembers env hm expected actual t).2 = t ++ evs ∧
    addMember_calls evs = [] ∧ directives evs = [] ∧
    mutations evs = (exchanges evs).*1 ∧ http_requests evs = (exchanges evs).*1 ∧
    ((∃ resps,
        (RemoveStaleMembers env hm expected actual t).1 = Ret tt ∧
        length resps = length (stale expected actual) ∧
        removeMember_calls evs = stale expected actual ∧
        exchanges evs
          = zip (delete_request hm <$> stale expected actual) (HttpResp <$> resps))
     ∨
     (∃ pre rm post resps e,
        stale expected actual = pre ++ rm :: post ∧
        (RemoveStaleMembers env hm expected actual t).1 = Exit 1 ∧
        length resps = length pre ∧
        removeMember_calls evs = pre ++ [rm] ∧
        last evs = Some (EvLog [VErr e]) ∧
        ((http_NewRequest env DELETE (url (delete_request hm rm)) = Some e ∧
          exchanges evs = zip (delete_request hm <$> pre) (HttpResp <$> resps))
         ∨
         exchanges evs
           = zip (delete_request hm <$> pre) (HttpResp <$> resps)
               ++ [(delete_request hm rm, HttpErr e)]))).
Proof.
  revert t. induction actual as [|m rest IH]; intros t.
  - exists []. rewrite RemoveStaleMembers_nil, app_nil_r. cbn.
    repeat (split; [done|]). left. by exists [].
  - destruct (decide (Name m ∈ Name <$> expected)) as [Hin|Hin].
    + rewrite RemoveStaleMembers_expected by done.
      unfold stale. rewrite filter_cons_False by (by intros ?). apply IH.
    + rewrite RemoveStaleMembers_stale by done.
      assert (stale expected (m :: rest) = m :: stale expected rest) as ->
        by (unfold stale; by rewrite filter_cons_True).
      rewrite RemoveMember_run. cbv zeta.
      destruct (http_NewRequest env DELETE _) as [e|] eqn:Hnew.
      { eexists [_; _]. cbn [fst snd]. split; [by rewrite <- app_assoc|].
        repeat (split; [done|]). right.
        exists [], m, (stale expected rest), [], e. repeat (split; [done|]). by left. }
      destruct (httpClient env _ (delete_request hm m)) as [e|resp] eqn:Hdo.
      { eexists [_; _; _]. cbn [fst snd]. split; [by rewrite <- !app_assoc|].
        repeat (split; [done|]). right.
        exists [], m, (stale expected rest), [], e. repeat (split; [done|]). by right. }
      destruct (IH ((t ++ [EvLog [VStr "Removing member"; VMember m]])
                    ++ [EvHttp (delete_request hm m) (HttpResp resp);
                        EvLog [VStr "Member removed"]]))
        as (evs & Htr & Hadd & Hdir & Hmut & Hreq & Hcases).
      eexists ([_; _; _] ++ evs). rewrite Htr.
      split; [by rewrite <- !app_assoc|].
      rewrite addMember_calls_app, directives_app, mutations_app, http_requests_app,
        exchanges_app, removeMember_calls_app, Hadd, Hdir, Hmut, Hreq.
      repeat (split; [done|]).
      destruct Hcases as [(resps & Ho & Hlen & Hcalls & Hex)
                         |(pre & rm & post & resps & e & Hst & Ho & Hlen & Hcalls & Hlast & Hex)].
      * left. exists (resp :: resps). rewrite Hcalls, Hex. cbn. by rewrite Hlen.
      * right. exists (m :: pre), rm, post, (resp :: resps), e.
        rewrite Hst, Hcalls. cbn [length]. rewrite Hlen.
        repeat (split; [done|]). split.
        { rewrite last_app, Hlast. done. }
        destruct Hex as [[Hn Hex]|Hex]; rewrite Hex; [left|right]; done.
Qed.

(** The two read-only operations of the client always return, and leave
    only quiet events. *)
Lemma FindHealthyMember_quiet members t :
  ∃ r evs, FindHealthyMember env members t = (Ret r, t ++ evs) ∧ quiet evs.
Proof.
  revert t. induction members as [|m rest IH]; intros t.
  - exists (Member_zero, Some "No healthy member found"), [].
    cbn. by rewrite app_nil_r.
  - rewrite FindHealthyMember_cons. cbv zeta.
    destruct (asserts_health env _).
    + eexists _, [_; _; _]. split; [by rewrite <- !app_assoc|]. done.
    + match goal with
      | |- context [FindHealthyMember env rest ?t'] =>
          destruct (IH t') as (r & evs & -> & Hq)
      end.
      eexists r, ([_; _; _] ++ evs). split; [by rewrite <- !app_assoc|].
      apply quiet_app; [|done].
      destruct (httpClient env _ _); done.
Qed.

Lemma ListMembers_quiet hm t :
  ∃ r evs, ListMembers env hm t = (Ret r, t ++ evs) ∧ quiet evs.
Proof.
  unfold ListMembers. cbv zeta. rewrite bind_log_Println.
  unfold httpClient_Get. rewrite bind_Do.
  destruct (httpClient env _ _); cbn.
  - eexists _, [_; _]. split; [by rewrite <- !app_assoc|]. done.
  - eexists _, [_; _; _]. split; [by rewrite <- !app_assoc|]. done.
Qed.

(** [GetMyself]: the first member of the expected roster that bears the
    local name, or a panic; the trace is not touched. *)
Lemma GetMyself_found expected insId t :
  insId ∈ Name <$> expected →
  ∃ myself, GetMyself expected insId t = (Ret myself, t) ∧
            myself ∈ expected ∧ Name myself = insId.
Proof.
  induction expected as [|m rest IH]; cbn; [by intros ?%elem_of_nil|].
  intros Hin. case_decide as Hm.
  - exists m. repeat split; [by left|done].
  - apply elem_of_cons in Hin as [Hin|Hin]; [done|].
    destruct (IH Hin) as (myself & ? & ? & ?). exists myself.
    repeat split; [done|by right|done].
Qed.

Lemma GetMyself_missing expected insId t :
  insId ∉ Name <$> expected →
  GetMyself expected insId t
  = (Panic ("Couldn't find instance in expected members" +:+ insId), t).
Proof.
  induction expected as [|m rest IH]; cbn; [done|].
  intros Hin. apply not_elem_of_cons in Hin as [? ?]. case_decide; [done|]. by apply IH.
Qed.

(** The flag [exists] of [MaybeAddMyself] after the loop. *)
Lemma exists_flag existing (myself : Member) (b : bool) :
  fold_left (λ (exists_ : bool) (member : Member),
               if decide (Name member = Name myself) then true else exists_)
            existing b
  = b || bool_decide (Name myself ∈ Name <$> existing).
Proof.
  revert b. induction existing as [|m rest IH]; intros b; cbn.
  - rewrite bool_decide_eq_false_2 by (by intros ?%elem_of_nil). by rewrite orb_false_r.
  - rewrite IH. destruct (decide (Name m = Name myself)) as [Hm|Hm].
    + rewrite (bool_decide_eq_true_2 (_ ∈ _ :: _)) by (apply elem_of_cons; by left).
      by rewrite !orb_true_r.
    + destruct (decide (Name myself ∈ Name <$> rest)) as [Hin|Hin].
      * rewrite !bool_decide_eq_true_2; [done|by right|done].
      * rewrite !bool_decide_eq_false_2; [done| |done].
        intros [?|?]%elem_of_cons; [congruence|done].
Qed.

Lemma MaybeAddMyself_present hm existing myself t :
  Name myself ∈ Name <$> existing →
  MaybeAddMyself env hm existing myself t = (Ret tt, t).
Proof.
  intros Hin. unfold MaybeAddMyself. cbv zeta. rewrite exists_flag.
  by rewrite bool_decide_eq_true_2.
Qed.

Lemma MaybeAddMyself_absent hm existing myself t :
  Name myself ∉ Name <$> existing →
  MaybeAddMyself env hm existing myself t =
  let t1 := t ++ [EvLog [VStr "Adding member"; VMember myself]] in
  let res := httpClient env t1 (add_request hm myself) in
  match res with
  | HttpErr e =>
    (Exit 1, t1 ++ [EvHttp (add_request hm myself) res; EvLog [VErr e]])
  | HttpResp _ =>
    (Ret tt, t1 ++ [EvHttp (add_request hm myself) res; EvLog [VStr "Member added"]])
  end.
Proof.
  intros Hin. unfold MaybeAddMyself. cbv zeta. rewrite exists_flag.
  rewrite bool_decide_eq_false_2 by done. cbn [orb negb].
  unfold bind. rewrite AddMember_run. cbv zeta.
  destruct (httpClient env _ (add_request hm myself)); cbn; [|done].
  unfold log_Fatal. by rewrite <- app_assoc.
Qed.

(** The peer list [WriteDropIn] builds is that of the roster it is given. *)
Lemma initCluster_peer_list expected :
  strings_Join
    (fold_left (λ initCluster member,
                  initCluster ++ [Name member +:+ "=" +:+ PeerURL member])
               expected []) ","
  = peer_list expected.
Proof. unfold peer_list. by rewrite (fold_left_snoc (λ m, Name m +:+ "=" +:+ PeerURL m)). Qed.

Lemma WriteDropIn_run expected state t :
  WriteDropIn env expected state t =
  let dir := path_Dir env (dropInFile env) in
  let e1 := os_MkdirAll env t dir 511 in
  let t1 := t ++ [EvMkdirAll dir 511 e1] in
  match e1 with
  | Some e => (Exit 1, t1 ++ [EvLog [VErr e]])
  | None =>
    let e2 := os_Create env t1 (dropInFile env) in
    let t2 := t1 ++ [EvCreate (dropInFile env) e2] in
    match e2 with
    | Some e => (Exit 1, t2 ++ [EvLog [VErr e]])
    | None =>
      (Ret tt,
       t2 ++ [EvFprintf (dropInFile env) (dropIn_text (peer_list expected) state);
              EvClose (dropInFile env)])
    end
  end.
Proof.
  unfold WriteDropIn. cbv zeta. rewrite initCluster_peer_list.
  unfold bind at 1. unfold call_MkdirAll at 1.
  destruct (os_MkdirAll env t _ 511); [done|].
  unfold bind at 1. unfold call_Create at 1.
  destruct (os_Create env _ _); [done|].
  rewrite bind_emit. unfold emit. by rewrite <- app_assoc.
Qed.

Lemma WriteDropIn_writable expected state t :
  writable env t →
  WriteDropIn env expected state t =
  (Ret tt,
   t ++ [EvMkdirAll (path_Dir env (dropInFile env)) 511 None;
         EvCreate (dropInFile env) None;
         EvFprintf (dropInFile env) (dropIn_text (peer_list expected) state);
         EvClose (dropInFile env)]).
Proof.
  intros [Hmk Hcr]. rewrite WriteDropIn_run. cbv zeta. rewrite Hmk, Hcr.
  by rewrite <- !app_assoc.
Qed.

Lemma WriteDropIn_trace expected state t :
  ∃ evs,
    (WriteDropIn env expected state t).2 = t ++ evs ∧
    removeMember_calls evs = [] ∧ addMember_calls evs = [] ∧
    mutations evs = [] ∧ http_requests evs = [] ∧
    (((WriteDropIn env expected state t).1 = Ret tt ∧
      directives evs = [directive_of env expected state])
     ∨
     ((WriteDropIn env expected state t).1 = Exit 1 ∧ directives evs = [])).
Proof.
  rewrite WriteDropIn_run. cbv zeta.
  destruct (os_MkdirAll env t _ 511) as [e|].
  { eexists [_; _]. split; [by rewrite <- !app_assoc|]. repeat (split; [done|]). by right. }
  destruct (os_Create env _ _) as [e|].
  { eexists [_; _; _]. split; [by rewrite <- !app_assoc|]. repeat (split; [done|]). by right. }
  eexists [_; _; _; _]. split; [by rewrite <- !app_assoc|]. repeat (split; [done|]). by left.
Qed.

(** [main], when the discovery of the cluster fails. *)
Lemma main_no_healthy expected insId t0 m e t1 :
  FindHealthyMember env expected t0 = (Ret (m, Some e), t1) →
  main env expected insId t0 =
  fallback env expected (t1 ++ [EvLog [VErr e]]).
Proof. intros H. unfold main. rewrite (bind_Ret _ _ _ _ _ H). by rewrite bind_log_Println. Qed.

Lemma main_list_failed expected insId t0 hm t1 ms e t2 :
  FindHealthyMember env expected t0 = (Ret (hm, None), t1) →
  ListMembers env hm t1 = (Ret (ms, Some e), t2) →
  main env expected insId t0 =
  fallback env expected (t2 ++ [EvLog [VErr e]]).
Proof.
  intros H1 H2. unfold main. rewrite (bind_Ret _ _ _ _ _ H1).
  rewrite (bind_Ret _ _ _ _ _ H2). by rewrite bind_log_Println.
Qed.

(** [main], when a healthy member was found and listed the actual roster. *)
Lemma main_reconcile expected insId t0 hm t1 actual t2 :
  FindHealthyMember env expected t0 = (Ret (hm, None), t1) →
  ListMembers env hm t1 = (Ret (actual, None), t2) →
  main env expected insId t0 =
  bind (RemoveStaleMembers env hm expected actual)
       (λ _, ensure_self env hm expected actual insId) t2.
Proof.
  intros H1 H2. unfold main. rewrite (bind_Ret _ _ _ _ _ H1).
  by rewrite (bind_Ret _ _ _ _ _ H2).
Qed.

(** [ensure_self], case by case. *)
Lemma ensure_self_missing hm expected actual insId t :
  insId ∉ Name <$> expected →
  ensure_self env hm expected actual insId t
  = (Panic ("Couldn't find instance in expected members" +:+ insId), t).
Proof.
  intros Hin. unfold ensure_self.
  by rewrite (bind_Panic _ _ _ _ _ (GetMyself_missing _ _ t Hin)).
Qed.

Lemma ensure_self_present hm expected actual insId t :
  insId ∈ Name <$> expected → insId ∈ Name <$> actual →
  ensure_self env hm expected actual insId t
  = WriteDropIn env expected "existing" t.
Proof.
  intros Hin Hact. destruct (GetMyself_found _ _ t Hin) as (myself & Hget & _ & Hname).
  unfold ensure_self. rewrite (bind_Ret _ _ _ _ _ Hget).
  rewrite (bind_Ret _ _ _ _ _ (MaybeAddMyself_present hm actual myself t
                                 ltac:(by rewrite Hname))).
  done.
Qed.

Lemma ensure_self_absent hm expected actual insId t :
  insId ∈ Name <$> expected → insId ∉ Name <$> actual →
  ∃ myself, myself ∈ expected ∧ Name myself = insId ∧
    ensure_self env hm expected actual insId t =
    let t1 := t ++ [EvLog [VStr "Adding member"; VMember myself]] in
    let res := httpClient env t1 (add_request hm myself) in
    match res with
    | HttpErr e =>
      (Exit 1, t1 ++ [EvHttp (add_request hm myself) res; EvLog [VErr e]])
    | HttpResp _ =>
      WriteDropIn env expected "existing"
        (t1 ++ [EvHttp (add_request hm myself) res; EvLog [VStr "Member added"]])
    end.
Proof.
  intros Hin Hact. destruct (GetMyself_found _ _ t Hin) as (myself & Hget & Hmem & Hname).
  exists myself. split; [done|]. split; [done|].
  unfold ensure_self. rewrite (bind_Ret _ _ _ _ _ Hget).
  unfold bind at 1. rewrite MaybeAddMyself_absent by (by rewrite Hname). cbv zeta.
  by destruct (httpClient env _ (add_request hm myself)).
Qed.

(** What [ensure_self] leaves in the trace: no removal; at most one
    addition, for the local entry and only when its name is not in the
    actual roster; the directive only when it returns. *)
Lemma ensure_self_trace hm expected actual insId t :
  ∃ evs,
    (ensure_self env hm expected actual insId t).2 = t ++ evs ∧
    removeMember_calls evs = [] ∧ http_requests evs = mutations evs ∧
    ((addMember_calls evs = [] ∧ mutations evs = [])
     ∨
     (∃ myself, myself ∈ expected ∧ Name myself = insId ∧
        (insId ∉ Name <$> actual) ∧
        addMember_calls evs = [myself] ∧
        mutations evs = [add_request hm myself])) ∧
    (((ensure_self env hm expected actual insId t).1 = Ret tt ∧
      directives evs = [directive_of env expected "existing"])
     ∨
     ((ensure_self env hm expected actual insId t).1 ≠ Ret tt ∧
      (ensure_self env hm expected actual insId t).1 ≠ Exit 0 ∧
      directives evs = [])).
Proof.
  destruct (decide (insId ∈ Name <$> expected)) as [Hin|Hin]; cycle 1.
  { rewrite ensure_self_missing by done. exists []. rewrite app_nil_r.
    repeat (split; [done|]). split; [by left|]. by right. }
  destruct (decide (insId ∈ Name <$> actual)) as [Hact|Hact].
  { rewrite ensure_self_present by done.
    destruct (WriteDropIn_trace expected "existing" t)
      as (evs & Htr & Hrm & Hadd & Hmut & Hreq & Hdir).
    exists evs. rewrite Hreq, Hmut. repeat (split; [done|]). split; [by left|].
    destruct Hdir as [[-> ->]|[-> ->]]; [by left|by right]. }
  destruct (ensure_self_absent hm expected actual insId t Hin Hact)
    as (myself & Hmem & Hname & ->). cbv zeta.
  destruct (httpClient env _ (add_request hm myself)) as [e|resp].
  { eexists [_; _; _]. split; [by rewrite <- !app_assoc|].
    repeat (split; [done|]). split; [|by right].
    right. by exists myself. }
  match goal with
  | |- context [WriteDropIn env expected "existing" ?t'] =>
      destruct (WriteDropIn_trace expected "existing" t')
        as (evs & Htr & Hrm & Hadd & Hmut & Hreq & Hdir)
  end.
  eexists ([_; _; _] ++ evs). rewrite Htr. split; [by rewrite <- !app_assoc|].
  rewrite removeMember_calls_app, http_requests_app, mutations_app,
    addMember_calls_app, directives_app, Hrm, Hreq, Hmut, Hadd.
  repeat (split; [done|]). split; [right; by exists myself|].
  destruct Hdir as [[-> ->]|[-> ->]]; [by left|by right].
Qed.

(** The fallback of [main]: log the error, write the directive for a new
    cluster, exit with status 0. *)
Lemma fallback_trace expected e t :
  ∃ evs,
    (fallback env expected (t ++ [EvLog [VErr e]])).2
      = t ++ evs ∧
    removeMember_calls evs = [] ∧ addMember_calls evs = [] ∧ mutations evs = [] ∧
    (((fallback env expected (t ++ [EvLog [VErr e]])).1
        = Exit 0 ∧
      directives evs = [directive_of env expected "new"])
     ∨
     ((fallback env expected (t ++ [EvLog [VErr e]])).1
        = Exit 1 ∧
      directives evs = [])).
Proof.
  destruct (WriteDropIn_trace expected "new" (t ++ [EvLog [VErr e]]))
    as (evs & Htr & Hrm & Hadd & Hmut & _ & Hdir).
  exists ([EvLog [VErr e]] ++ evs).
  rewrite removeMember_calls_app, addMember_calls_app, mutations_app, directives_app,
    Hrm, Hadd, Hmut.
  unfold fallback, bind.
  destruct (WriteDropIn env expected "new" (t ++ [EvLog [VErr e]])) as [[[]| |] t'];
    cbn [fst snd] in *; subst t'; rewrite <- app_assoc;
    repeat (split; [done|]);
    destruct Hdir as [[Ho ->]|[Ho ->]]; try discriminate Ho; [by left|].
  injection Ho as ->. by right.
Qed.

(** C5, as the code has it.  If [FindHealthyMember] returns an error, or
    returns a member whose [ListMembers] call returns an error, the run
    makes no [RemoveMember] and no [AddMember] call and sends no editing
    request; and, the file system permitting, it writes the directive with
    mode [new] and the peer list of the whole expected roster, and exits
    with status 0.  [ListMembers] returns an error only when the list
    request fails in transport, with that error: a response whose body
    cannot be decoded is not among the failures this is about. *)
Theorem main_degrades_to_new (expected : list Member) (insId : string)
    (t0 t1 : Trace) (e : error) :
  ((∃ m, FindHealthyMember env expected t0 = (Ret (m, Some e), t1))
   ∨
   (∃ hm t' ms,
      FindHealthyMember env expected t0 = (Ret (hm, None), t') ∧
      ListMembers env hm t' = (Ret (ms, Some e), t1))) →
  (∃ evs,
     (main env expected insId t0).2 = t0 ++ evs ∧
     removeMember_calls evs = [] ∧ addMember_calls evs = [] ∧ mutations evs = [] ∧
     (writable env (t1 ++ [EvLog [VErr e]]) →
      (main env expected insId t0).1 = Exit 0 ∧
      directives evs = [directive_of env expected "new"]))
  ∧
  (∀ hm t' ms,
     ListMembers env hm t' = (Ret (ms, Some e), t1) →
     httpClient env
       (t' ++ [EvLog [VStr "Listing members using url"; VStr (url (list_request hm))]])
       (list_request hm) = HttpErr e).
Proof.
  intros Hfail. split; cycle 1.
  { intros hm t' ms. unfold ListMembers. cbv zeta. rewrite bind_log_Println.
    unfold httpClient_Get. rewrite bind_Do. fold (list_request hm).
    cbn [url list_request].
    destruct (httpClient env _ (list_request hm)) as [e'|resp]; cbn.
    - by intros [= _ -> _].
    - by intros [=]. }
  assert (∃ evs0, t1 = t0 ++ evs0 ∧ quiet evs0 ∧
            main env expected insId t0 =
            fallback env expected
                 (t1 ++ [EvLog [VErr e]])) as (evs0 & -> & Hq & ->).
  { destruct Hfail as [(m & Hf)|(hm & t' & ms & Hf & Hl)].
    - destruct (FindHealthyMember_quiet expected t0) as (r & evs0 & Hf' & Hq).
      exists evs0. rewrite Hf in Hf'. injection Hf' as _ ->.
      split; [done|]. split; [done|]. by eapply main_no_healthy.
    - destruct (FindHealthyMember_quiet expected t0) as (r & evs0 & Hf' & Hq).
      rewrite Hf in Hf'. injection Hf' as _ ->.
      destruct (ListMembers_quiet hm (t0 ++ evs0)) as (r' & evs1 & Hl' & Hq').
      rewrite Hl in Hl'. injection Hl' as _ ->.
      exists (evs0 ++ evs1). split; [by rewrite app_assoc|].
      split; [by apply quiet_app|]. by eapply main_list_failed. }
  destruct Hq as (Hq1 & Hq2 & Hq3 & Hq4).
  destruct (fallback_trace expected e (t0 ++ evs0)) as (evs & Htr & Hrm & Hadd & Hmut & Hdir).
  exists (evs0 ++ evs). rewrite Htr.
  rewrite removeMember_calls_app, addMember_calls_app, mutations_app, directives_app,
    Hq1, Hq2, Hq3, Hq4, Hrm, Hadd, Hmut.
  split; [by rewrite app_assoc|]. repeat (split; [done|]).
  intros Hw. unfold fallback, bind in *.
  rewrite (WriteDropIn_writable expected "new" _ Hw) in *. cbn [fst snd] in *.
  split; [done|]. destruct Hdir as [[_ ->]|[[=] _]]. done.
Qed.

(** The two ways through [main]. *)
Lemma main_cases expected insId t0 :
  (∃ e evs0,
      quiet evs0 ∧
      main env expected insId t0
        = fallback env expected ((t0 ++ evs0) ++ [EvLog [VErr e]]))
  ∨
  (∃ hm t1 actual evs0,
      FindHealthyMember env expected t0 = (Ret (hm, None), t1) ∧
      ListMembers env hm t1 = (Ret (actual, None), t0 ++ evs0) ∧
      quiet evs0 ∧
      main env expected insId t0
        = bind (RemoveStaleMembers env hm expected actual)
               (λ _, ensure_self env hm expected actual insId) (t0 ++ evs0)).
Proof.
  destruct (FindHealthyMember_quiet expected t0) as ([hm [e|]] & evs0 & Hf & Hq).
  { left. exists e, evs0. split; [done|]. by eapply main_no_healthy. }
  destruct (ListMembers_quiet hm (t0 ++ evs0)) as ([actual [e|]] & evs1 & Hl & Hq').
  { left. exists e, (evs0 ++ evs1). split; [by apply quiet_app|].
    rewrite app_assoc. by eapply main_list_failed. }
  right. exists hm, (t0 ++ evs0), actual, (evs0 ++ evs1).
  rewrite app_assoc. split; [done|]. split; [done|]. split; [by apply quiet_app|].
  by eapply main_reconcile.
Qed.

Lemma discovery_quiet expected t0 hm t1 actual t2 :
  FindHealthyMember env expected t0 = (Ret (hm, None), t1) →
  ListMembers env hm t1 = (Ret (actual, None), t2) →
  ∃ evs0, t2 = t0 ++ evs0 ∧ quiet evs0.
Proof.
  intros Hf Hl.
  destruct (FindHealthyMember_quiet expected t0) as (r & evs0 & Hf' & Hq).
  rewrite Hf in Hf'. injection Hf' as _ ->.
  destruct (ListMembers_quiet hm (t0 ++ evs0)) as (r' & evs1 & Hl' & Hq').
  rewrite Hl in Hl'. injection Hl' as _ ->.
  exists (evs0 ++ evs1). split; [by rewrite app_assoc|]. by apply quiet_app.
Qed.

(** Pruning, then [ensure_self]: the trace of the two together. *)
Lemma reconcile_trace hm expected actual insId t :
  ∃ evs_p evs_s,
    (RemoveStaleMembers env hm expected actual t).2 = t ++ evs_p ∧
    (bind (RemoveStaleMembers env hm expected actual)
          (λ _, ensure_self env hm expected actual insId) t).2
      = t ++ evs_p ++ evs_s ∧
    (((RemoveStaleMembers env hm expected actual t).1 = Ret tt ∧
      bind (RemoveStaleMembers env hm expected actual)
           (λ _, ensure_self env hm expected actual insId) t
        = ensure_self env hm expected actual insId (t ++ evs_p) ∧
      (ensure_self env hm expected actual insId (t ++ evs_p)).2
        = (t ++ evs_p) ++ evs_s)
     ∨
     ((RemoveStaleMembers env hm expected actual t).1 = Exit 1 ∧
      (bind (RemoveStaleMembers env hm expected actual)
            (λ _, ensure_self env hm expected actual insId) t).1 = Exit 1 ∧
      evs_s = [])).
Proof.
  destruct (RemoveStaleMembers_trace hm expected actual t)
    as (evs_p & Htr & _ & _ & _ & _ & Hcases).
  exists evs_p. unfold bind.
  destruct (RemoveStaleMembers env hm expected actual t) as [o t'].
  cbn [fst snd] in *. subst t'.
  destruct Hcases as [(resps & -> & _)|(pre & rm & post & resps & e & _ & -> & _)].
  - destruct (ensure_self_trace hm expected actual insId (t ++ evs_p))
      as (evs_s & Htr & _).
    exists evs_s. split; [done|]. rewrite Htr. split; [by rewrite app_assoc|].
    left. done.
  - exists []. rewrite !app_nil_r. split; [done|]. split; [done|]. by right.
Qed.

Lemma stale_nil_of_names expected actual :
  Name <$> actual = Name <$> expected → stale expected actual = [].
Proof.
  intros Hnames. unfold stale. rewrite <- Hnames. clear Hnames.
  assert (∀ l, (∀ m, m ∈ l → m ∈ actual) →
               filter (λ m, Name m ∉ Name <$> actual) l = []) as Hsub.
  { induction l as [|m l IH]; intros Hl; [done|].
    rewrite filter_cons_False.
    - apply IH. intros m' Hm'. apply Hl. by right.
    - intros Hnot. apply Hnot, list_elem_of_fmap_2, Hl. by left. }
  by apply Hsub.
Qed.

Lemma RemoveStaleMembers_none hm expected actual t :
  stale expected actual = [] →
  RemoveStaleMembers env hm expected actual t = (Ret tt, t).
Proof.
  unfold stale. induction actual as [|m rest IH]; [done|].
  destruct (decide (Name m ∈ Name <$> expected)) as [Hin|Hin].
  - rewrite filter_cons_False by (by intros ?). intros Hnil.
    rewrite RemoveStaleMembers_expected by done. by apply IH.
  - by rewrite filter_cons_True.
Qed.

(** C1. When the roster listed by the healthy member has the names of the
    expected roster, member for member, and the local name is among them,
    the run makes no [RemoveMember] and no [AddMember] call and sends no
    editing request; and, the file system permitting, it returns after
    writing the directive with mode [existing] and the peer list of the
    expected roster, in its order. *)
Theorem main_idempotent (expected : list Member) (insId : string)
    (t0 : Trace) (hm : Member) (t1 : Trace) (actual : list Member) (t2 : Trace) :
  FindHealthyMember env expected t0 = (Ret (hm, None), t1) →
  ListMembers env hm t1 = (Ret (actual, None), t2) →
  Name <$> actual = Name <$> expected →
  insId ∈ Name <$> expected →
  ∃ evs,
    (main env expected insId t0).2 = t0 ++ evs ∧
    removeMember_calls evs = [] ∧ addMember_calls evs = [] ∧ mutations evs = [] ∧
    (writable env t2 →
     (main env expected insId t0).1 = Ret tt ∧
     directives evs = [directive_of env expected "existing"]).
Proof.
  intros Hf Hl Hnames Hin.
  destruct (discovery_quiet _ _ _ _ _ _ Hf Hl) as (evs0 & -> & Hq1 & Hq2 & Hq3 & Hq4).
  rewrite (main_reconcile _ insId _ _ _ _ _ Hf Hl).
  rewrite (bind_Ret _ _ _ _ _
             (RemoveStaleMembers_none hm expected actual _ (stale_nil_of_names _ _ Hnames))).
  rewrite ensure_self_present by (by rewrite ?Hnames).
  destruct (WriteDropIn_trace expected "existing" (t0 ++ evs0))
    as (evs & Htr & Hrm & Hadd & Hmut & _ & Hdir).
  exists (evs0 ++ evs). rewrite Htr.
  rewrite removeMember_calls_app, addMember_calls_app, mutations_app, directives_app,
    Hq1, Hq2, Hq3, Hq4, Hrm, Hadd, Hmut.
  split; [by rewrite app_assoc|]. repeat (split; [done|]).
  intros Hw. rewrite (WriteDropIn_writable expected "existing" _ Hw) in *.
  cbn [fst snd] in *. split; [done|]. by destruct Hdir as [[_ ->]|[[=] _]].
Qed.

Lemma stale_spec expected actual rm :
  rm ∈ stale expected actual ↔ (Name rm ∉ Name <$> expected) ∧ rm ∈ actual.
Proof. unfold stale. apply (list_elem_of_filter (λ m, Name m ∉ Name <$> expected)). Qed.

(** Pruning concerns stale members only: the calls are made for, and the
    requests sent are the deletions of, members of the stale list. *)
Lemma RemoveStaleMembers_only_stale hm expected actual t evs :
  (RemoveStaleMembers env hm expected actual t).2 = t ++ evs →
  Forall (λ rm, rm ∈ stale expected actual) (removeMember_calls evs) ∧
  Forall (λ req, ∃ rm, rm ∈ stale expected actual ∧ req = delete_request hm rm)
         (mutations evs).
Proof.
  intros Htr.
  destruct (RemoveStaleMembers_trace hm expected actual t)
    as (evs' & Htr' & _ & _ & Hmut & _ & Hcases).
  rewrite Htr in Htr'. apply app_inv_head in Htr' as <-. rewrite Hmut.
  assert (∀ (l : list Member) resps, length resps = length l →
            (∀ rm, rm ∈ l → rm ∈ stale expected actual) →
            Forall (λ req, ∃ rm, rm ∈ stale expected actual ∧ req = delete_request hm rm)
                   (zip (delete_request hm <$> l) (HttpResp <$> resps)).*1) as Hzip.
  { intros l resps Hlen Hl. rewrite fst_zip by (rewrite !length_fmap; lia).
    apply Forall_fmap, Forall_forall. intros rm Hrm. exists rm. split; [by apply Hl|done]. }
  destruct Hcases as [(resps & _ & Hlen & -> & ->)
                     |(pre & rm & post & resps & e & Hst & _ & Hlen & -> & _ & Hex)].
  - split; [by apply Forall_forall|]. by apply Hzip.
  - assert (∀ x, x ∈ pre → x ∈ stale expected actual) as Hpre
      by (intros x Hx; rewrite Hst; apply elem_of_app; by left).
    assert (rm ∈ stale expected actual) as Hrm
      by (rewrite Hst; apply elem_of_app; right; by left).
    split.
    + apply Forall_app. split; [by apply Forall_forall|]. by repeat constructor.
    + destruct Hex as [[_ ->]| ->]; [by apply Hzip|].
      rewrite fmap_app. apply Forall_app. split; [by apply Hzip|].
      repeat constructor. by exists rm.
Qed.

(** In a cooperative environment the pruning returns, the local node,
    when it is expected, gets through [ensure_self], and the fallback exits
    with status 0. *)
Lemma RemoveStaleMembers_cooperative hm expected actual t :
  cooperative env → (RemoveStaleMembers env hm expected actual t).1 = Ret tt.
Proof.
  intros (Hnew & Hdo & _). revert t. induction actual as [|m rest IH]; intros t; [done|].
  destruct (decide (Name m ∈ Name <$> expected)) as [Hin|Hin].
  - rewrite RemoveStaleMembers_expected by done. apply IH.
  - rewrite RemoveStaleMembers_stale by done. rewrite RemoveMember_run. cbv zeta.
    rewrite Hnew.
    destruct (Hdo (t ++ [EvLog [VStr "Removing member"; VMember m]])
                  (delete_request hm m) ltac:(done)) as [resp ->].
    apply IH.
Qed.

Lemma ensure_self_cooperative hm expected actual insId t :
  cooperative env → insId ∈ Name <$> expected →
  (ensure_self env hm expected actual insId t).1 = Ret tt.
Proof.
  intros (_ & Hdo & Hw) Hin.
  destruct (decide (insId ∈ Name <$> actual)) as [Hact|Hact].
  - rewrite ensure_self_present by done. by rewrite WriteDropIn_writable.
  - destruct (ensure_self_absent hm expected actual insId t Hin Hact)
      as (myself & _ & _ & ->). cbv zeta.
    destruct (Hdo (t ++ [EvLog [VStr "Adding member"; VMember myself]])
                  (add_request hm myself) ltac:(done)) as [resp ->].
    by rewrite WriteDropIn_writable.
Qed.

Lemma fallback_cooperative expected t :
  cooperative env → (fallback env expected t).1 = Exit 0.
Proof.
  intros (_ & _ & Hw). unfold fallback, bind. by rewrite WriteDropIn_writable.
Qed.

(** C6. Whatever the environment answers, the directive the run writes, if
    it writes one, is for the expected roster: the text carries the
    [name=peerURL] pairs of all the expected members, in their order, joined
    by commas.  A run that returns has written exactly the directive with
    mode [existing], a run that exits with status 0 exactly the one with
    mode [new].  And a run does end in one of these two ways, hence with its
    directive written, whenever the environment is cooperative and the
    local name is in the expected roster. *)
Theorem main_directive_is_expected_roster (expected : list Member) (insId : string)
    (t0 : Trace) :
  ∃ evs,
    (main env expected insId t0).2 = t0 ++ evs ∧
    ((main env expected insId t0).1 = Ret tt →
     directives evs = [directive_of env expected "existing"]) ∧
    ((main env expected insId t0).1 = Exit 0 →
     directives evs = [directive_of env expected "new"]) ∧
    (∀ d, d ∈ directives evs →
          d = directive_of env expected "new" ∨
          d = directive_of env expected "existing") ∧
    (cooperative env → insId ∈ Name <$> expected →
     (main env expected insId t0).1 = Ret tt ∨
     (main env expected insId t0).1 = Exit 0).
Proof.
  assert (cooperative env → insId ∈ Name <$> expected →
          (main env expected insId t0).1 = Ret tt ∨
          (main env expected insId t0).1 = Exit 0) as Hends.
  { intros Hco Hin.
    destruct (main_cases expected insId t0)
      as [(e & evs0 & _ & ->)|(hm & t1 & actual & evs0 & _ & _ & _ & ->)].
    - right. by apply fallback_cooperative.
    - left. unfold bind.
      pose proof (RemoveStaleMembers_cooperative hm expected actual (t0 ++ evs0) Hco) as Hp.
      destruct (RemoveStaleMembers env hm expected actual (t0 ++ evs0)) as [o t'].
      cbn [fst] in Hp. subst o. by apply ensure_self_cooperative. }
  cut (∃ evs,
         (main env expected insId t0).2 = t0 ++ evs ∧
         ((main env expected insId t0).1 = Ret tt →
          directives evs = [directive_of env expected "existing"]) ∧
         ((main env expected insId t0).1 = Exit 0 →
          directives evs = [directive_of env expected "new"]) ∧
         (∀ d, d ∈ directives evs →
               d = directive_of env expected "new" ∨
               d = directive_of env expected "existing")).
  { intros (evs & H1 & H2 & H3 & H4). exists evs. done. }
  clear Hends.

  destruct (main_cases expected insId t0)
    as [(e & evs0 & Hq & ->)|(hm & t1 & actual & evs0 & _ & _ & Hq & ->)];
    destruct Hq as (_ & _ & _ & Hq).
  - rewrite <- app_assoc.
    destruct (fallback_trace expected e (t0 ++ evs0)) as (evs & Htr & _ & _ & _ & Hdir).
    rewrite <- !app_assoc in *. eexists (evs0 ++ evs). rewrite Htr.
    split; [by rewrite <- ?app_assoc|]. rewrite directives_app, Hq. cbn [app].
    destruct Hdir as [[-> ->]|[-> ->]].
    + split; [done|]. split; [done|]. intros d ?%list_elem_of_singleton. by left.
    + split; [done|]. split; [done|]. by intros d ?%elem_of_nil.
  - destruct (reconcile_trace hm expected actual insId (t0 ++ evs0))
      as (evs_p & evs_s & Hp & Htr & Hcases).
    destruct (RemoveStaleMembers_trace hm expected actual (t0 ++ evs0))
      as (evs_p' & Hp' & _ & Hdp & _).
    rewrite Hp in Hp'. apply app_inv_head in Hp' as <-.
    exists (evs0 ++ evs_p ++ evs_s). rewrite Htr.
    split; [by rewrite <- ?app_assoc|]. rewrite !directives_app, Hq, Hdp. cbn [app].
    destruct Hcases as [(_ & -> & Hs)|(_ & -> & ->)].
    + destruct (ensure_self_trace hm expected actual insId ((t0 ++ evs0) ++ evs_p))
        as (evs_s' & Hs' & _ & _ & _ & Hdir).
      rewrite Hs in Hs'. apply app_inv_head in Hs' as <-.
      destruct Hdir as [[-> ->]|(Hn1 & Hn2 & ->)].
      * split; [done|]. split; [done|]. intros d ?%list_elem_of_singleton. by right.
      * split; [done|]. split; [done|]. by intros d ?%elem_of_nil.
    + split; [done|]. split; [done|]. by intros d ?%elem_of_nil.
Qed.

(** C3, as the code has it.  After a healthy member has listed the actual
    roster, the [RemoveMember] calls of the run are made for the stale
    members (those of the actual roster whose name is not in the expected
    roster), in the actual roster's order, one call per stale member, each
    sending the DELETE of that member's [id]; no call is made for a member
    whose name is expected.  A removal fails, for the run, when it returns
    an error: the request could not be built, or its transport failed.
    Either every stale member is removed so, each request having got a
    response, of whatever status; or a removal returns an error, and then
    the run exits with status 1 right there: the error is the last thing
    logged, the stale members after that one are not tried and nothing else
    follows. *)
Theorem main_prunes_stale (expected : list Member) (insId : string)
    (t0 : Trace) (hm : Member) (t1 : Trace) (actual : list Member) (t2 : Trace) :
  FindHealthyMember env expected t0 = (Ret (hm, None), t1) →
  ListMembers env hm t1 = (Ret (actual, None), t2) →
  ∃ evs0 evs_p evs_s,
    t2 = t0 ++ evs0 ∧ removeMember_calls evs0 = [] ∧ mutations evs0 = [] ∧
    (main env expected insId t0).2 = t2 ++ evs_p ++ evs_s ∧
    removeMember_calls evs_s = [] ∧
    Forall (λ req, verb req ≠ DELETE) (http_requests evs_s) ∧
    Forall (λ rm, Name rm ∉ Name <$> expected) (removeMember_calls evs_p) ∧
    ((∃ resps,
        length resps = length (stale expected actual) ∧
        removeMember_calls evs_p = stale expected actual ∧
        exchanges evs_p
          = zip (delete_request hm <$> stale expected actual) (HttpResp <$> resps))
     ∨
     (∃ pre rm post resps e,
        stale expected actual = pre ++ rm :: post ∧
        (main env expected insId t0).1 = Exit 1 ∧
        evs_s = [] ∧
        length resps = length pre ∧
        removeMember_calls evs_p = pre ++ [rm] ∧
        last evs_p = Some (EvLog [VErr e]) ∧
        ((http_NewRequest env DELETE (url (delete_request hm rm)) = Some e ∧
          exchanges evs_p = zip (delete_request hm <$> pre) (HttpResp <$> resps))
         ∨
         exchanges evs_p
           = zip (delete_request hm <$> pre) (HttpResp <$> resps)
               ++ [(delete_request hm rm, HttpErr e)]))).
Proof.
  intros Hf Hl.
  destruct (discovery_quiet _ _ _ _ _ _ Hf Hl) as (evs0 & Ht2 & Hq1 & _ & Hq3 & _).
  rewrite (main_reconcile _ insId _ _ _ _ _ Hf Hl).
  destruct (reconcile_trace hm expected actual insId t2)
    as (evs_p & evs_s & Hp & Htr & Hcases).
  destruct (RemoveStaleMembers_trace hm expected actual t2)
    as (evs_p' & Hp' & _ & _ & _ & _ & Hrsm).
  rewrite Hp in Hp'. apply app_inv_head in Hp' as <-.
  destruct (RemoveStaleMembers_only_stale hm expected actual t2 evs_p Hp) as [Hcalls _].
  exists evs0, evs_p, evs_s. rewrite Htr. repeat (split; [done|]).
  assert (Forall (λ rm, Name rm ∉ Name <$> expected) (removeMember_calls evs_p)) as Hnames.
  { eapply Forall_impl; [exact Hcalls|]. by intros rm [? _]%stale_spec. }
  destruct Hcases as [(Ho & Heq & Hs)|(Ho & Ho' & ->)].
  - destruct (ensure_self_trace hm expected actual insId (t2 ++ evs_p))
      as (evs_s' & Hs' & Hrm & Hreq & Hadd & _).
    rewrite Hs in Hs'. apply app_inv_head in Hs' as <-.
    split; [done|]. split.
    { rewrite Hreq. destruct Hadd as [[_ ->]|(myself & _ & _ & _ & _ & ->)];
        by repeat constructor. }
    split; [done|].
    destruct Hrsm as [(resps & _ & Hlen & Hc & Hex)|(? & ? & ? & ? & ? & _ & Ho'' & _)].
    + left. by exists resps.
    + rewrite Ho in Ho''. discriminate.
  - split; [done|]. split; [by constructor|]. split; [done|].
    destruct Hrsm as [(resps & Ho'' & _)|(pre & rm & post & resps & e & Hst & _ & Hlen & Hc & Hlast & Hex)].
    + rewrite Ho in Ho''. discriminate.
    + right. exists pre, rm, post, resps, e. done.
Qed.


(** The calls and editing requests of a whole run, once a healthy member
    has listed the actual roster. *)
Lemma main_edits expected insId t0 hm t1 actual t2 :
  FindHealthyMember env expected t0 = (Ret (hm, None), t1) →
  ListMembers env hm t1 = (Ret (actual, None), t2) →
  ∃ evs,
    (main env expected insId t0).2 = t0 ++ evs ∧
    Forall (λ rm, rm ∈ stale expected actual) (removeMember_calls evs) ∧
    Forall (λ am, am ∈ expected ∧ Name am = insId ∧ (insId ∉ Name <$> actual))
           (addMember_calls evs) ∧
    Forall (λ req,
              (∃ rm, rm ∈ stale expected actual ∧ req = delete_request hm rm)
              ∨
              (∃ am, am ∈ expected ∧ Name am = insId ∧
                     (insId ∉ Name <$> actual) ∧ req = add_request hm am))
           (mutations evs).
Proof.
  intros Hf Hl.
  destruct (discovery_quiet _ _ _ _ _ _ Hf Hl) as (evs0 & Ht2 & Hq1 & Hq2 & Hq3 & _).
  rewrite (main_reconcile _ insId _ _ _ _ _ Hf Hl).
  destruct (reconcile_trace hm expected actual insId t2)
    as (evs_p & evs_s & Hp & Htr & Hcases).
  destruct (RemoveStaleMembers_trace hm expected actual t2)
    as (evs_p' & Hp' & Haddp & _).
  rewrite Hp in Hp'. apply app_inv_head in Hp' as <-.
  destruct (RemoveStaleMembers_only_stale hm expected actual t2 evs_p Hp) as [Hcalls Hmut].
  exists (evs0 ++ evs_p ++ evs_s). rewrite Htr, Ht2.
  split; [by rewrite <- !app_assoc|].
  rewrite !removeMember_calls_app, !addMember_calls_app, !mutations_app,
    Hq1, Hq2, Hq3, Haddp. cbn [app].
  assert (removeMember_calls evs_s = [] ∧
          ((addMember_calls evs_s = [] ∧ mutations evs_s = [])
           ∨
           (∃ myself, myself ∈ expected ∧ Name myself = insId ∧
              (insId ∉ Name <$> actual) ∧
              addMember_calls evs_s = [myself] ∧
              mutations evs_s = [add_request hm myself]))) as [-> Hadd].
  { destruct Hcases as [(_ & _ & Hs)|(_ & _ & ->)]; [|split; [done|by left]].
    destruct (ensure_self_trace hm expected actual insId (t2 ++ evs_p))
      as (evs_s' & Hs' & Hrm & _ & Hadd & _).
    rewrite Hs in Hs'. by apply app_inv_head in Hs' as <-. }
  rewrite app_nil_r. split; [done|].
  destruct Hadd as [[-> ->]|(myself & Hmem & Hname & Hact & -> & ->)].
  - split; [by constructor|]. rewrite app_nil_r.
    eapply Forall_impl; [exact Hmut|]. intros req ?. by left.
  - split; [by apply Forall_singleton|]. apply Forall_app. split.
    + eapply Forall_impl; [exact Hmut|]. intros req ?. by left.
    + apply Forall_singleton. right. by exists myself.
Qed.

(** C10. The reconciliation goes by name only.  For a member record [m]
    (whatever its [id] and URLs) whose name is both in the expected and in
    the actual roster, the run makes no [RemoveMember] and no [AddMember]
    call for [m]; and every editing request of the run is either the
    deletion of a member of the actual roster whose name is not expected, or
    the addition of a member of the expected roster whose name is not in
    the actual roster. *)
Theorem main_name_only (expected : list Member) (insId : string)
    (t0 : Trace) (hm : Member) (t1 : Trace) (actual : list Member) (t2 : Trace)
    (m : Member) :
  FindHealthyMember env expected t0 = (Ret (hm, None), t1) →
  ListMembers env hm t1 = (Ret (actual, None), t2) →
  Name m ∈ Name <$> expected →
  Name m ∈ Name <$> actual →
  ∃ evs,
    (main env expected insId t0).2 = t0 ++ evs ∧
    (m ∉ removeMember_calls evs) ∧
    (m ∉ addMember_calls evs) ∧
    Forall (λ req,
              (∃ rm, rm ∈ actual ∧ (Name rm ∉ Name <$> expected) ∧
                     req = delete_request hm rm)
              ∨
              (∃ am, am ∈ expected ∧ (Name am ∉ Name <$> actual) ∧
                     req = add_request hm am))
           (mutations evs).
Proof.
  intros Hf Hl Hexp Hact.
  destruct (main_edits expected insId t0 hm t1 actual t2 Hf Hl)
    as (evs & Htr & Hrm & Hadd & Hmut).
  exists evs. split; [done|]. split; [|split].
  - intros Hm. eapply Forall_forall in Hrm; [|exact Hm].
    apply stale_spec in Hrm as [Hn _]. done.
  - intros Hm. eapply Forall_forall in Hadd; [|exact Hm].
    destruct Hadd as (_ & Hname & Hn). by rewrite Hname in Hact.
  - eapply Forall_impl; [exact Hmut|]. cbn.
    intros req [(rm & [Hn Hrmem]%stale_spec & ->)|(am & Hmem & Hname & Hn & ->)].
    + left. by exists rm.
    + right. exists am. by rewrite Hname.
Qed.

(** C2, as the code has it.  When the local name is not in the expected
    roster, the run never makes an [AddMember] call, every editing request
    it sends is a DELETE, it never returns, and it writes no directive but,
    possibly, the one with mode [new].  The identity is looked up after the
    pruning, not before: once a healthy member has listed the actual roster,
    the run first makes the [RemoveMember] calls for the stale members, in
    order.  If none of them returns an error, one call has been made and one
    DELETE answered for every stale member by the time the run panics with
    the configuration error, and nothing follows the removals; otherwise the
    run exits with status 1 at the first removal that returns an error. *)
Theorem main_missing_self (expected : list Member) (insId : string) (t0 : Trace) :
  insId ∉ Name <$> expected →
  (∃ evs,
     (main env expected insId t0).2 = t0 ++ evs ∧
     addMember_calls evs = [] ∧
     Forall (λ req, verb req = DELETE) (mutations evs) ∧
     (main env expected insId t0).1 ≠ Ret tt ∧
     (directives evs = [] ∨ directives evs = [directive_of env expected "new"]))
  ∧
  (∀ hm t1 actual t2,
     FindHealthyMember env expected t0 = (Ret (hm, None), t1) →
     ListMembers env hm t1 = (Ret (actual, None), t2) →
     ∃ evs_p,
       (main env expected insId t0).2 = t2 ++ evs_p ∧
       ((∃ resps,
           (main env expected insId t0).1
           = Panic ("Couldn't find instance in expected members" +:+ insId) ∧
           length resps = length (stale expected actual) ∧
           removeMember_calls evs_p = stale expected actual ∧
           exchanges evs_p
           = zip (delete_request hm <$> stale expected actual) (HttpResp <$> resps))
        ∨
        (∃ pre rm post e,
           stale expected actual = pre ++ rm :: post ∧
           (main env expected insId t0).1 = Exit 1 ∧
           removeMember_calls evs_p = pre ++ [rm] ∧
           last evs_p = Some (EvLog [VErr e])))).
Proof.
  intros Hin. split.
  - destruct (main_cases expected insId t0)
      as [(e & evs0 & Hq & Hmain)|(hm & t1 & actual & evs0 & Hf & Hl & Hq & Hmain)];
      destruct Hq as (_ & Hq2 & Hq3 & Hq4).
    + rewrite Hmain, <- app_assoc.
      destruct (fallback_trace expected e (t0 ++ evs0)) as (evs & Htr & _ & Hadd & Hmut & Hdir).
      rewrite <- ?app_assoc in *. exists (evs0 ++ evs). rewrite Htr.
      rewrite addMember_calls_app, mutations_app, directives_app, Hq2, Hq3, Hq4, Hadd, Hmut.
      cbn [app]. split; [done|]. split; [done|]. split; [by constructor|].
      destruct Hdir as [[-> ->]|[-> ->]]; split; [done|by right|done|by left].
    + rewrite Hmain.
      destruct (reconcile_trace hm expected actual insId (t0 ++ evs0))
        as (evs_p & evs_s & Hp & Htr & Hcases).
      destruct (RemoveStaleMembers_trace hm expected actual (t0 ++ evs0))
        as (evs_p' & Hp' & Haddp & Hdirp & _).
      rewrite Hp in Hp'. apply app_inv_head in Hp' as <-.
      destruct (RemoveStaleMembers_only_stale hm expected actual _ evs_p Hp) as [_ Hmut].
      assert (evs_s = [] ∧
              (bind (RemoveStaleMembers env hm expected actual)
                    (λ _, ensure_self env hm expected actual insId) (t0 ++ evs0)).1
              ≠ Ret tt) as [-> Hne].
      { destruct Hcases as [(_ & -> & Hs)|(_ & -> & ->)]; [|done].
        rewrite ensure_self_missing in * by done. cbn [fst snd] in *.
        split; [|done]. rewrite <- (app_nil_r ((t0 ++ evs0) ++ evs_p)) in Hs at 1.
        by apply app_inv_head in Hs as <-. }
      exists (evs0 ++ evs_p). rewrite Htr, app_nil_r.
      rewrite addMember_calls_app, mutations_app, directives_app,
        Hq2, Hq3, Hq4, Haddp, Hdirp. cbn [app].
      split; [by rewrite <- app_assoc|]. split; [done|]. split; [|split; [done|by left]].
      eapply Forall_impl; [exact Hmut|]. by intros req (rm & _ & ->).
  - intros hm t1 actual t2 Hf Hl.
    rewrite (main_reconcile _ insId _ _ _ _ _ Hf Hl).
    destruct (reconcile_trace hm expected actual insId t2)
      as (evs_p & evs_s & Hp & Htr & Hcases).
    destruct (RemoveStaleMembers_trace hm expected actual t2)
      as (evs_p' & Hp' & _ & _ & _ & _ & Hrsm).
    rewrite Hp in Hp'. apply app_inv_head in Hp' as <-.
    exists evs_p. rewrite Htr.
    destruct Hcases as [(Ho & -> & Hs)|(Ho & -> & ->)].
    + rewrite ensure_self_missing in * by done. cbn [fst snd] in *.
      rewrite <- (app_nil_r (t2 ++ evs_p)) in Hs at 1.
      apply app_inv_head in Hs as <-. rewrite app_nil_r. split; [done|].
      destruct Hrsm as [(resps & _ & Hlen & Hc & Hex)|(? & ? & ? & ? & ? & _ & Ho' & _)].
      * left. by exists resps.
      * rewrite Ho in Ho'. discriminate.
    + rewrite app_nil_r. split; [done|].
      destruct Hrsm as [(resps & Ho' & _)
                       |(pre & rm & post & resps & e & Hst & _ & _ & Hc & Hlast & _)].
      * rewrite Ho in Ho'. discriminate.
      * right. by exists pre, rm, post, e.
Qed.

End ReconcilerFacts.

(** ** Concrete runs *)

Ltac by_computation := vm_compute; reflexivity.
Ltac decide_by_computation := apply (bool_decide_unpack _); vm_compute; exact I.

Lemma writable_world healthy roster status t :
  writable (world healthy roster status true) t.
Proof. by split. Qed.

(** The converged cluster: nothing is edited, the directive says [existing]. *)
Lemma main_idempotent_witness :
  FindHealthyMember converged [mA; mB] [] = (Ret (mA, None), probed_A) ∧
  ListMembers converged mA probed_A = (Ret ([mA'; mB'], None), listed converged) ∧
  Name <$> [mA'; mB'] = Name <$> [mA; mB] ∧
  "i-b" ∈ Name <$> [mA; mB] ∧
  ∃ evs,
    (main converged [mA; mB] "i-b" []).2 = [] ++ evs ∧
    removeMember_calls evs = [] ∧ addMember_calls evs = [] ∧ mutations evs = [] ∧
    (main converged [mA; mB] "i-b" []).1 = Ret tt ∧
    directives evs = [directive_of converged [mA; mB] "existing"].
Proof.
  assert (FindHealthyMember converged [mA; mB] [] = (Ret (mA, None), probed_A))
    as H1 by by_computation.
  assert (ListMembers converged mA probed_A = (Ret ([mA'; mB'], None), listed converged))
    as H2 by by_computation.
  assert (Name <$> [mA'; mB'] = Name <$> [mA; mB]) as H3 by reflexivity.
  assert ("i-b" ∈ Name <$> [mA; mB]) as H4 by decide_by_computation.
  do 4 (split; [assumption|]).
  destruct (main_idempotent converged [mA; mB] "i-b" [] mA probed_A [mA'; mB']
              (listed converged) H1 H2 H3 H4) as (evs & Htr & Hrm & Hadd & Hmut & Hw).
  exists evs. do 4 (split; [assumption|]).
  exact (Hw (writable_world _ _ _ _)).
Defined.

(** Nobody answers: the run falls back to a new cluster and exits with 0. *)
Lemma main_degrades_to_new_witness :
  ((∃ m, FindHealthyMember nobody [mA; mB] []
         = (Ret (m, Some "No healthy member found"), probed_nobody))
   ∨
   (∃ hm t' ms,
      FindHealthyMember nobody [mA; mB] [] = (Ret (hm, None), t') ∧
      ListMembers nobody hm t' = (Ret (ms, Some "No healthy member found"), probed_nobody))) ∧
  ∃ evs,
    (main nobody [mA; mB] "i-b" []).2 = [] ++ evs ∧
    removeMember_calls evs = [] ∧ addMember_calls evs = [] ∧ mutations evs = [] ∧
    (main nobody [mA; mB] "i-b" []).1 = Exit 0 ∧
    directives evs = [directive_of nobody [mA; mB] "new"].
Proof.
  assert ((∃ m, FindHealthyMember nobody [mA; mB] []
                = (Ret (m, Some "No healthy member found"), probed_nobody))
          ∨
          (∃ hm t' ms,
             FindHealthyMember nobody [mA; mB] [] = (Ret (hm, None), t') ∧
             ListMembers nobody hm t'
             = (Ret (ms, Some "No healthy member found"), probed_nobody))) as H.
  { left. exists Member_zero. by_computation. }
  split; [exact H|].
  destruct (main_degrades_to_new nobody [mA; mB] "i-b" [] probed_nobody
              "No healthy member found" H) as [(evs & Htr & Hrm & Hadd & Hmut & Hw) _].
  exists evs. do 4 (split; [assumption|]).
  exact (Hw (writable_world _ _ _ _)).
Defined.

(** A stale member C: it is removed, by its id, and nobody else is. *)
Lemma main_prunes_stale_witness :
  FindHealthyMember with_stale [mA; mB] [] = (Ret (mA, None), probed_A) ∧
  ListMembers with_stale mA probed_A
  = (Ret ([mkMember "1a" "i-a" "http://10.9.9.9:2379" "http://10.9.9.9:2380"; mB'; mC'],
          None),
     listed with_stale) ∧
  ∃ evs_p evs_s resp,
    (main with_stale [mA; mB] "i-a" []).2 = listed with_stale ++ evs_p ++ evs_s ∧
    removeMember_calls evs_s = [] ∧
    removeMember_calls evs_p = [mC'] ∧
    exchanges evs_p = [(delete_request mA mC', HttpResp resp)].
Proof.
  assert (FindHealthyMember with_stale [mA; mB] [] = (Ret (mA, None), probed_A))
    as H1 by by_computation.
  assert (ListMembers with_stale mA probed_A
          = (Ret ([mkMember "1a" "i-a" "http://10.9.9.9:2379" "http://10.9.9.9:2380";
                   mB'; mC'], None),
             listed with_stale)) as H2 by by_computation.
  do 2 (split; [assumption|]).
  destruct (main_prunes_stale with_stale [mA; mB] "i-a" [] mA probed_A _ _ H1 H2)
    as (evs0 & evs_p & evs_s & _ & _ & _ & Htr & Hrm & _ & _ & Hcases).
  exists evs_p, evs_s.
  destruct Hcases as [(resps & Hlen & Hcalls & Hex)
                     |(pre & rm & post & resps & e & _ & Hexit & _)].
  - change (stale [mA; mB] _) with [mC'] in Hlen, Hcalls, Hex.
    destruct resps as [|resp [|resp' resps]]; try discriminate Hlen.
    exists resp. do 3 (split; [assumption|]). exact Hex.
  - exfalso. vm_compute in Hexit. discriminate Hexit.
Defined.


(** Member A is in both rosters, at different URLs: no call is made for it. *)
Lemma main_name_only_witness :
  FindHealthyMember with_stale [mA; mB] [] = (Ret (mA, None), probed_A) ∧
  ListMembers with_stale mA probed_A
  = (Ret ([mkMember "1a" "i-a" "http://10.9.9.9:2379" "http://10.9.9.9:2380"; mB'; mC'],
          None),
     listed with_stale) ∧
  Name mA ∈ Name <$> [mA; mB] ∧
  Name mA ∈ Name <$> [mkMember "1a" "i-a" "http://10.9.9.9:2379" "http://10.9.9.9:2380";
                       mB'; mC'] ∧
  ∃ evs,
    (main with_stale [mA; mB] "i-a" []).2 = [] ++ evs ∧
    (mA ∉ removeMember_calls evs) ∧
    (mA ∉ addMember_calls evs).
Proof.
  assert (FindHealthyMember with_stale [mA; mB] [] = (Ret (mA, None), probed_A))
    as H1 by by_computation.
  assert (ListMembers with_stale mA probed_A
          = (Ret ([mkMember "1a" "i-a" "http://10.9.9.9:2379" "http://10.9.9.9:2380";
                   mB'; mC'], None),
             listed with_stale)) as H2 by by_computation.
  assert (Name mA ∈ Name <$> [mA; mB]) as H3 by decide_by_computation.
  assert (Name mA ∈ Name <$> [mkMember "1a" "i-a" "http://10.9.9.9:2379"
                                "http://10.9.9.9:2380"; mB'; mC'])
    as H4 by decide_by_computation.
  do 4 (split; [assumption|]).
  destruct (main_name_only with_stale [mA; mB] "i-a" [] mA probed_A _ _ mA H1 H2 H3 H4)
    as (evs & Htr & Hrm & Hadd & _).
  exists evs. do 2 (split; [assumption|]). exact Hadd.
Defined.

(** A local name Z that the inventory does not know: the stale C has been
    removed, its DELETE answered, by the time the run panics. *)
Lemma main_missing_self_witness :
  ("i-z" ∉ Name <$> [mA; mB]) ∧
  FindHealthyMember with_stale [mA; mB] [] = (Ret (mA, None), probed_A) ∧
  ListMembers with_stale mA probed_A
  = (Ret ([mkMember "1a" "i-a" "http://10.9.9.9:2379" "http://10.9.9.9:2380"; mB'; mC'],
          None),
     listed with_stale) ∧
  (∃ evs,
     (main with_stale [mA; mB] "i-z" []).2 = [] ++ evs ∧
     addMember_calls evs = [] ∧
     (main with_stale [mA; mB] "i-z" []).1 ≠ Ret tt) ∧
  (∃ evs_p resp,
     (main with_stale [mA; mB] "i-z" []).2 = listed with_stale ++ evs_p ∧
     (main with_stale [mA; mB] "i-z" []).1
     = Panic "Couldn't find instance in expected membersi-z" ∧
     removeMember_calls evs_p = [mC'] ∧
     exchanges evs_p = [(delete_request mA mC', HttpResp resp)]).
Proof.
  assert ("i-z" ∉ Name <$> [mA; mB]) as H0 by decide_by_computation.
  assert (FindHealthyMember with_stale [mA; mB] [] = (Ret (mA, None), probed_A))
    as H1 by by_computation.
  assert (ListMembers with_stale mA probed_A
          = (Ret ([mkMember "1a" "i-a" "http://10.9.9.9:2379" "http://10.9.9.9:2380";
                   mB'; mC'], None),
             listed with_stale)) as H2 by by_computation.
  do 3 (split; [assumption|]).
  destruct (main_missing_self with_stale [mA; mB] "i-z" [] H0) as [Hall Hpanic].
  split.
  - destruct Hall as (evs & Htr & Hadd & _ & Hne & _).
    exists evs. do 2 (split; [assumption|]). exact Hne.
  - destruct (Hpanic mA probed_A _ (listed with_stale) H1 H2)
      as (evs_p & Htr & [(resps & Hp & Hlen & Hcalls & Hex)
                        |(pre & rm & post & e & _ & Hexit & _)]).
    + change (stale [mA; mB] _) with [mC'] in Hlen, Hcalls, Hex.
      destruct resps as [|resp [|resp' resps]]; try discriminate Hlen.
      exists evs_p, resp. do 3 (split; [assumption|]). exact Hex.
    + exfalso. vm_compute in Hexit. discriminate Hexit.
Defined.

Lemma cooperative_world healthy roster status :
  cooperative (world healthy roster status true).
Proof.
  split; [done|]. split; [|intros t; apply writable_world].
  intros t [[] u c b] Hv; cbn in *; [done|by eexists..].
Qed.

(** The two outcomes and their directives: the local node B joins the
    cluster of A and the run returns; nobody answers and the run exits
    with status 0. *)
Lemma main_directive_is_expected_roster_witness :
  cooperative (only_A 200) ∧
  "i-b" ∈ Name <$> [mA; mB] ∧
  (main (only_A 200) [mA; mB] "i-b" []).1 = Ret tt ∧
  (∃ evs,
     (main (only_A 200) [mA; mB] "i-b" []).2 = [] ++ evs ∧
     directives evs = [directive_of (only_A 200) [mA; mB] "existing"]) ∧
  (main nobody [mA; mB] "i-b" []).1 = Exit 0 ∧
  (∃ evs,
     (main nobody [mA; mB] "i-b" []).2 = [] ++ evs ∧
     directives evs = [directive_of nobody [mA; mB] "new"]).
Proof.
  assert (cooperative (only_A 200)) as Hco by apply cooperative_world.
  assert ("i-b" ∈ Name <$> [mA; mB]) as Hin by decide_by_computation.
  do 2 (split; [assumption|]).
  destruct (main_directive_is_expected_roster (only_A 200) [mA; mB] "i-b" [])
    as (evs & Htr & Hret & _ & _ & Hends).
  destruct (main_directive_is_expected_roster nobody [mA; mB] "i-b" [])
    as (evs' & Htr' & _ & Hexit & _ & Hends').
  assert ((main (only_A 200) [mA; mB] "i-b" []).1 = Ret tt) as Ho.
  { destruct (Hends Hco Hin) as [Ho|Ho]; [exact Ho|].
    exfalso. vm_compute in Ho. discriminate Ho. }
  assert ((main nobody [mA; mB] "i-b" []).1 = Exit 0) as Ho'.
  { destruct (Hends' (cooperative_world _ _ _) Hin) as [Ho'|Ho']; [|exact Ho'].
    exfalso. vm_compute in Ho'. discriminate Ho'. }
  split; [exact Ho|]. split; [exists evs; split; [exact Htr|exact (Hret Ho)]|].
  split; [exact Ho'|]. exists evs'. split; [exact Htr'|exact (Hexit Ho')].
Defined.

(** C3 fails as stated: the DELETE of the stale C is refused with status
    500, which is no acceptance, and the run neither aborts nor skips
    anything it would report: it returns with the directive of mode
    [existing]. *)
Lemma refused_removal_goes_unnoticed :
  exchanges (main refusing [mA; mB] "i-a" []).2
  = [(health_probe mA, HttpResp (mkResponse 200 "H"));
     (list_request mA, HttpResp (mkResponse 200 "M"));
     (delete_request mA mC', HttpResp (mkResponse 500 EmptyString))] ∧
  ¬ (200 ≤ 500 < 300) ∧
  removeMember_calls (main refusing [mA; mB] "i-a" []).2 = [mC'] ∧
  (main refusing [mA; mB] "i-a" []).1 = Ret tt ∧
  directives (main refusing [mA; mB] "i-a" []).2
  = [directive_of refusing [mA; mB] "existing"].
Proof. split; [by_computation|]. split; [lia|]. repeat split; by_computation. Qed.

(** C5 fails as stated: the list request completes with a body in which no
    member list can be decoded, [ListMembers] reports no error, and the run
    does not fall back: it adds the local node B and returns with the
    directive of mode [existing]. *)
Lemma undecoded_list_does_not_degrade :
  FindHealthyMember garbled [mA; mB] [] = (Ret (mA, None), probed_A) ∧
  httpClient garbled
    (probed_A ++ [EvLog [VStr "Listing members using url"; VStr (url (list_request mA))]])
    (list_request mA) = HttpResp (mkResponse 200 "M") ∧
  decode_members garbled "M" !! "members" = None ∧
  (ListMembers garbled mA probed_A).1 = Ret ([], None) ∧
  mutations (main garbled [mA; mB] "i-b" []).2 = [add_request mA mB] ∧
  (main garbled [mA; mB] "i-b" []).1 = Ret tt ∧
  directives (main garbled [mA; mB] "i-b" []).2
  = [directive_of garbled [mA; mB] "existing"].
Proof. repeat split; by_computation. Qed.

(** A POST and a DELETE answered with status 500 are reported as done. *)
Lemma AddMember_RemoveMember_ignore_status_witness :
  httpClient (only_A 500) ([] ++ [EvLog [VStr "Adding member"; VMember mB]])
             (add_request mA mB) = HttpResp (mkResponse 500 EmptyString) ∧
  http_NewRequest (only_A 500) DELETE (url (delete_request mA mC')) = None ∧
  httpClient (only_A 500) ([] ++ [EvLog [VStr "Removing member"; VMember mC']])
             (delete_request mA mC') = HttpResp (mkResponse 500 EmptyString) ∧
  (AddMember (only_A 500) mA mB []).1 = Ret None ∧
  (RemoveMember (only_A 500) mA mC' []).1 = Ret None.
Proof.
  assert (httpClient (only_A 500) ([] ++ [EvLog [VStr "Adding member"; VMember mB]])
                     (add_request mA mB) = HttpResp (mkResponse 500 EmptyString))
    as H1 by by_computation.
  assert (http_NewRequest (only_A 500) DELETE (url (delete_request mA mC')) = None)
    as H2 by reflexivity.
  assert (httpClient (only_A 500) ([] ++ [EvLog [VStr "Removing member"; VMember mC']])
                     (delete_request mA mC') = HttpResp (mkResponse 500 EmptyString))
    as H3 by by_computation.
  do 3 (split; [assumption|]).
  exact (AddMember_RemoveMember_ignore_status (only_A 500) mA mB [] _ mA mC' [] _ H1 H2 H3).
Defined.

(** C8 fails as stated: the response has status 500, which is not a 2xx,
    and both operations report success. *)
Lemma status_500_reported_as_success :
  httpClient (only_A 500) [EvLog [VStr "Adding member"; VMember mB]]
             (add_request mA mB) = HttpResp (mkResponse 500 EmptyString) ∧
  (AddMember (only_A 500) mA mB []).1 = Ret None ∧
  httpClient (only_A 500) [EvLog [VStr "Removing member"; VMember mC']]
             (delete_request mA mC') = HttpResp (mkResponse 500 EmptyString) ∧
  (RemoveMember (only_A 500) mA mC' []).1 = Ret None ∧
  ¬ (200 ≤ 500 < 300).
Proof. repeat split; try by_computation. lia. Qed.

(** C2 fails as stated: with the local name Z unknown to the inventory and
    a stale C in the cluster, the run has called [RemoveMember] for C and
    sent the DELETE by the time it panics; and when nobody answers it does
    not fail at all, it exits with status 0. *)
Lemma missing_self_removes_before_panic :
  ("i-z" ∉ Name <$> [mA; mB]) ∧
  (main with_stale [mA; mB] "i-z" []).1
  = Panic "Couldn't find instance in expected membersi-z" ∧
  removeMember_calls (main with_stale [mA; mB] "i-z" []).2 = [mC'] ∧
  mutations (main with_stale [mA; mB] "i-z" []).2 = [delete_request mA mC'] ∧
  (main nobody [mA; mB] "i-z" []).1 = Exit 0.
Proof. split; [decide_by_computation|]. repeat split; by_computation. Qed.

(** A member in the middle of joining is listed with empty URLs. *)
Lemma ListMembers_tolerates_empty_URLs_witness :
  httpClient with_joining
    ([] ++ [EvLog [VStr "Listing members using url"; VStr (url (list_request mA))]])
    (list_request mA) = HttpResp (mkResponse 200 "M") ∧
  ∃ evs,
    ListMembers with_joining mA [] =
    (Ret ([mA'; mkMember "4d" "i-d" EmptyString EmptyString], None), [] ++ evs).
Proof.
  assert (httpClient with_joining
            ([] ++ [EvLog [VStr "Listing members using url"; VStr (url (list_request mA))]])
            (list_request mA) = HttpResp (mkResponse 200 "M")) as H by by_computation.
  split; [assumption|].
  destruct (ListMembers_tolerates_empty_URLs with_joining mA [] _ H) as (evs & Hrun).
  exists evs. rewrite Hrun. by_computation.
Defined.

(** The earlier revision of [ListMembers] decoded into fields that are not
    exported and indexed the URL arrays without looking at their length: it
    panicked as soon as a member was listed. *)
Lemma ListMembers_rev0_panics_on_joining :
  (ListMembers_rev0 with_joining mA []).1
  = Panic "runtime error: index out of range [0] with length 0".
Proof. by_computation. Qed.

(** [FindHealthyMember], three candidates of which the second is the first
    healthy one: the first two are probed, the third is not. *)
Example FindHealthyMember_second_of_three :
  let env := world ["http://10.0.0.2:2379"; "http://10.0.0.3:2379"] None 204 true in
  (FindHealthyMember env [mA; mB; mC'] []).1 = Ret (mB, None) ∧
  http_requests (FindHealthyMember env [mA; mB; mC'] []).2
  = [health_probe mA; health_probe mB].
Proof. split; by_computation. Qed.

(** The two terminal outcomes and their directives. *)
Example main_directive_existing :
  (main (only_A 200) [mA; mB] "i-b" []).1 = Ret tt ∧
  directives (main (only_A 200) [mA; mB] "i-b" []).2
  = [("/run/etcd2.service.d/50-etcdmate.conf",
      "[Service]" +:+ LF +:+
      "Environment=ETCD_INITIAL_CLUSTER=i-a=http://10.0.0.1:2380,i-b=http://10.0.0.2:2380"
      +:+ LF +:+ "Environment=ETCD_INITIAL_CLUSTER_STATE=existing" +:+ LF)].
Proof. split; by_computation. Qed.

Example main_directive_new :
  (main nobody [mA; mB] "i-b" []).1 = Exit 0 ∧
  directives (main nobody [mA; mB] "i-b" []).2
  = [("/run/etcd2.service.d/50-etcdmate.conf",
      "[Service]" +:+ LF +:+
      "Environment=ETCD_INITIAL_CLUSTER=i-a=http://10.0.0.1:2380,i-b=http://10.0.0.2:2380"
      +:+ LF +:+ "Environment=ETCD_INITIAL_CLUSTER_STATE=new" +:+ LF)].
Proof. split; by_computation. Qed.

(** * Further properties *)

(** ** The admin client, operation by operation *)

Section ClientOperations.
Context (env : Env).




End ClientOperations.

(** ** The two revisions of [ListMembers] *)

Section Revisions.
Context (env : Env).

Lemma decode_members_rev0_members body :
  decode_members_rev0 env body !!! "members"
  = unexported <$> (decode_members env body !!! "members").
Proof.
  unfold decode_members_rev0, lookup_total, map_lookup_total.
  rewrite lookup_fmap. by destruct (decode_members env body !! "members").
Qed.

Lemma ListMembers_rev0_loop_unexported js acc t :
  ListMembers_rev0_loop (unexported <$> js) acc t =
  match js with
  | [] => (Ret acc, t)
  | _ :: _ => (Panic "runtime error: index out of range [0] with length 0", t)
  end.
Proof. by destruct js. Qed.

(** X4. The earlier revision of [ListMembers], whose [jsonMember] has no
    exported field, panics with an index out of range as soon as the list
    request completes with a [members] array that is not empty, whatever
    the URLs of the members, where the current revision returns.  The two
    revisions agree, result and trace, when the request fails or the array
    is empty. *)
Theorem ListMembers_rev0_panics_on_members (hm : Member) (t : Trace) :
  let res :=
    httpClient env
      (t ++ [EvLog [VStr "Listing members using url"; VStr (url (list_request hm))]])
      (list_request hm) in
  let js :=
    match res with
    | HttpErr _ => []
    | HttpResp resp => decode_members env (Body resp) !!! "members"
    end in
  (js = [] → ListMembers_rev0 env hm t = ListMembers env hm t) ∧
  (js ≠ [] →
   (ListMembers_rev0 env hm t).1
   = Panic "runtime error: index out of range [0] with length 0" ∧
   ∃ r, (ListMembers env hm t).1 = Ret r).
Proof.
  cbv zeta. unfold ListMembers_rev0, ListMembers. cbv zeta.
  rewrite !bind_log_Println. unfold httpClient_Get. rewrite !bind_Do.
  fold (list_request hm). cbn [url list_request].
  destruct (httpClient env _ (list_request hm)) as [e|resp].
  - split; [done|]. by intros [].
  - rewrite decode_members_rev0_members. unfold bind at 1.
    rewrite ListMembers_rev0_loop_unexported.
    destruct (decode_members env (Body resp) !!! "members") as [|jm js].
    + split; [done|]. by intros [].
    + split; [done|]. intros _. split; [done|].
      rewrite bind_log_Println. by eexists.
Qed.

End Revisions.

(** ** The steps of the reconciler *)

Section ReconcilerSteps.
Context (env : Env).

(** X5. [GetMyself] returns the first member of the expected roster that
    bears the local name, also when later members bear it too, and does not
    touch the trace. *)
Theorem GetMyself_first (pre : list Member) (m : Member) (post : list Member)
    (insId : string) (t : Trace) :
  Name m = insId →
  insId ∉ Name <$> pre →
  GetMyself (pre ++ m :: post) insId t = (Ret m, t).
Proof.
  intros Hm. induction pre as [|p pre IH]; intros Hpre; cbn.
  - by rewrite decide_True.
  - apply not_elem_of_cons in Hpre as [Hp Hpre].
    rewrite decide_False by done. by apply IH.
Qed.


End ReconcilerSteps.

(** ** Whole runs *)

Section Runs.
Context (env : Env).

(** How [ensure_self] can end, and what it has written by then. *)
Lemma ensure_self_outcomes hm expected actual insId t :
  ∃ evs,
    (ensure_self env hm expected actual insId t).2 = t ++ evs ∧
    (((ensure_self env hm expected actual insId t).1 = Ret tt ∧
      directives evs = [directive_of env expected "existing"])
     ∨
     ((ensure_self env hm expected actual insId t).1 = Exit 1 ∧ directives evs = [])
     ∨
     ((ensure_self env hm expected actual insId t).1
        = Panic ("Couldn't find instance in expected members" +:+ insId) ∧
      (insId ∉ Name <$> expected) ∧ directives evs = [])).
Proof.
  destruct (decide (insId ∈ Name <$> expected)) as [Hin|Hin]; cycle 1.
  { rewrite ensure_self_missing by done. exists []. rewrite app_nil_r.
    split; [done|]. right. right. done. }
  destruct (decide (insId ∈ Name <$> actual)) as [Hact|Hact].
  { rewrite ensure_self_present by done.
    destruct (WriteDropIn_trace env expected "existing" t)
      as (evs & Htr & _ & _ & _ & _ & Hdir).
    exists evs. split; [done|].
    destruct Hdir as [[-> ->]|[-> ->]]; [by left|right; by left]. }
  destruct (ensure_self_absent env hm expected actual insId t Hin Hact)
    as (myself & Hmem & Hname & ->). cbv zeta.
  destruct (httpClient env _ (add_request hm myself)) as [e|resp].
  { eexists [_; _; _]. split; [by rewrite <- !app_assoc|]. right. by left. }
  match goal with
  | |- context [WriteDropIn env expected "existing" ?t'] =>
      destruct (WriteDropIn_trace env expected "existing" t')
        as (evs & Htr & _ & _ & _ & _ & Hdir)
  end.
  eexists ([_; _; _] ++ evs). rewrite Htr. split; [by rewrite <- !app_assoc|].
  rewrite directives_app. cbn [app].
  destruct Hdir as [[-> ->]|[-> ->]]; [by left|right; by left].
Qed.

(** How [main] can end, and what it has written by then. *)
Lemma main_outcomes expected insId t0 :
  ∃ evs,
    (main env expected insId t0).2 = t0 ++ evs ∧
    (((main env expected insId t0).1 = Ret tt ∧
      directives evs = [directive_of env expected "existing"])
     ∨
     ((main env expected insId t0).1 = Exit 0 ∧
      directives evs = [directive_of env expected "new"])
     ∨
     ((main env expected insId t0).1 = Exit 1 ∧ directives evs = [])
     ∨
     ((main env expected insId t0).1
        = Panic ("Couldn't find instance in expected members" +:+ insId) ∧
      (insId ∉ Name <$> expected) ∧ directives evs = [])).
Proof.
  destruct (main_cases env expected insId t0)
    as [(e & evs0 & Hq & ->)|(hm & t1 & actual & evs0 & _ & _ & Hq & ->)];
    destruct Hq as (_ & _ & _ & Hq).
  - rewrite <- app_assoc.
    destruct (fallback_trace env expected e (t0 ++ evs0)) as (evs & Htr & _ & _ & _ & Hdir).
    rewrite <- ?app_assoc in *. exists (evs0 ++ evs). rewrite Htr.
    split; [done|]. rewrite directives_app, Hq. cbn [app].
    destruct Hdir as [[-> ->]|[-> ->]]; [right; by left|right; right; by left].
  - destruct (reconcile_trace env hm expected actual insId (t0 ++ evs0))
      as (evs_p & evs_s & Hp & Htr & Hcases).
    destruct (RemoveStaleMembers_trace env hm expected actual (t0 ++ evs0))
      as (evs_p' & Hp' & _ & Hdp & _).
    rewrite Hp in Hp'. apply app_inv_head in Hp' as <-.
    exists (evs0 ++ evs_p ++ evs_s). rewrite Htr.
    split; [by rewrite <- ?app_assoc|]. rewrite !directives_app, Hq, Hdp. cbn [app].
    destruct Hcases as [(_ & -> & Hs)|(_ & -> & ->)]; [|right; right; by left].
    destruct (ensure_self_outcomes hm expected actual insId ((t0 ++ evs0) ++ evs_p))
      as (evs_s' & Hs' & Hout).
    rewrite Hs in Hs'. apply app_inv_head in Hs' as <-.
    destruct Hout as [[-> ->]|[[-> ->]|(-> & Hin & ->)]];
      [by left|right; right; by left|right; right; right; done].
Qed.

(** X7. A run ends in one of four ways: it returns, it exits with status 0,
    it exits with status 1, or it panics; and the only panic is the one of
    [GetMyself], which needs a local name that is not in the expected
    roster.  With the local name in the roster a run never panics. *)
Theorem main_ends (expected : list Member) (insId : string) (t0 : Trace) :
  (main env expected insId t0).1 = Ret tt ∨
  (main env expected insId t0).1 = Exit 0 ∨
  (main env expected insId t0).1 = Exit 1 ∨
  ((main env expected insId t0).1
     = Panic ("Couldn't find instance in expected members" +:+ insId) ∧
   (insId ∉ Name <$> expected)).
Proof.
  destruct (main_outcomes expected insId t0)
    as (evs & _ & [[H _]|[[H _]|[[H _]|(H & Hin & _)]]]); auto.
Qed.

(** X8. A run writes at most one directive, and a run that fails writes
    none: when it exits with status 1 or panics, no text has been handed to
    the drop-in file. *)
Theorem main_failure_writes_nothing (expected : list Member) (insId : string)
    (t0 : Trace) :
  ∃ evs,
    (main env expected insId t0).2 = t0 ++ evs ∧
    (length (directives evs) ≤ 1)%nat ∧
    ((main env expected insId t0).1 = Exit 1 ∨
     (∃ e, (main env expected insId t0).1 = Panic e) →
     directives evs = []).
Proof.
  destruct (main_outcomes expected insId t0)
    as (evs & Htr & [[H Hd]|[[H Hd]|[[H Hd]|(H & Hin & Hd)]]]);
    exists evs; rewrite Hd, H; (split; [done|]); (split; [cbn; lia|]);
    try done; intros [[=]|[e [=]]].
Qed.

End Runs.

(** ** The requests of a run, in order *)

Section Protocol.
Context (env : Env).

Lemma FindHealthyMember_requests members t :
  ∃ r evs k,
    FindHealthyMember env members t = (Ret r, t ++ evs) ∧
    http_requests evs = health_probe <$> take k members ∧
    match r.2 with
    | None => ∃ j, k = S j ∧ members !! j = Some r.1
    | Some _ => k = length members
    end.
Proof.
  revert t. induction members as [|m rest IH]; intros t.
  - exists (Member_zero, Some "No healthy member found"), [], 0%nat.
    cbn. by rewrite app_nil_r.
  - rewrite FindHealthyMember_cons. cbv zeta.
    destruct (asserts_health env _).
    + eexists _, [_; _; _], 1%nat. split; [by rewrite <- !app_assoc|].
      split; [done|]. cbn. by exists 0%nat.
    + match goal with
      | |- context [FindHealthyMember env rest ?t'] =>
          destruct (IH t') as (r & evs & k & -> & Hreq & Hk)
      end.
      eexists r, ([_; _; _] ++ evs), (S k). split; [by rewrite <- !app_assoc|].
      rewrite http_requests_app, Hreq. split.
      * by destruct (httpClient env _ _).
      * destruct (r.2); [by rewrite Hk|].
        destruct Hk as (j & -> & Hj). by exists (S j).
Qed.

Lemma ListMembers_requests hm t :
  ∃ r evs,
    ListMembers env hm t = (Ret r, t ++ evs) ∧ http_requests evs = [list_request hm].
Proof.
  unfold ListMembers. cbv zeta. rewrite bind_log_Println.
  unfold httpClient_Get. rewrite bind_Do. fold (list_request hm).
  destruct (httpClient env _ _); cbn.
  - eexists _, [_; _]. split; [by rewrite <- !app_assoc|]. done.
  - eexists _, [_; _; _]. split; [by rewrite <- !app_assoc|]. done.
Qed.

Lemma fallback_requests expected e t :
  ∃ evs,
    (fallback env expected (t ++ [EvLog [VErr e]])).2 = t ++ evs ∧
    http_requests evs = [].
Proof.
  destruct (WriteDropIn_trace env expected "new" (t ++ [EvLog [VErr e]]))
    as (evs & Htr & _ & _ & _ & Hreq & _).
  exists ([EvLog [VErr e]] ++ evs). rewrite http_requests_app, Hreq.
  unfold fallback, bind.
  destruct (WriteDropIn env expected "new" (t ++ [EvLog [VErr e]])) as [[[]| |] t'];
    cbn [fst snd] in *; subst t'; by rewrite <- app_assoc.
Qed.

Lemma RemoveStaleMembers_requests hm expected actual t :
  ∃ evs j,
    (RemoveStaleMembers env hm expected actual t).2 = t ++ evs ∧
    http_requests evs = delete_request hm <$> take j (stale expected actual) ∧
    ((RemoveStaleMembers env hm expected actual t).1 = Ret tt →
     j = length (stale expected actual)).
Proof.
  destruct (RemoveStaleMembers_trace env hm expected actual t)
    as (evs & Htr & _ & _ & _ & Hreq & Hcases).
  exists evs. rewrite Hreq.
  assert (∀ (l : list Member) (resps : list Response), length resps = length l →
            (zip (delete_request hm <$> l) (HttpResp <$> resps)).*1
            = delete_request hm <$> l) as Hzip.
  { intros l resps Hlen. apply fst_zip. rewrite !length_fmap. lia. }
  destruct Hcases as [(resps & Ho & Hlen & _ & ->)
                     |(pre & rm & post & resps & e & Hst & Ho & Hlen & _ & _ & Hex)].
  - exists (length (stale expected actual)). split; [done|].
    rewrite Hzip by done. by rewrite firstn_all.
  - rewrite Ho, Hst. destruct Hex as [[_ ->]| ->].
    + exists (length pre). split; [done|]. rewrite Hzip by done.
      by rewrite take_app_length.
    + exists (S (length pre)). split; [done|]. rewrite fmap_app, Hzip by done.
      split; [|done]. cbn [fmap list_fmap].
      change (pre ++ rm :: post) with (pre ++ [rm] ++ post). rewrite app_assoc.
      rewrite (take_app_length' (pre ++ [rm]) post) by (rewrite length_app; cbn; lia).
      by rewrite fmap_app.
Qed.

End Protocol.

Section ProtocolFacts.
Context (env : Env).

(** X9. The requests of a run come in a fixed order.  First the health
    probes of the expected members, in order: of all of them if
    [FindHealthyMember] finds none healthy, and otherwise up to and
    including the member [hm] it returns.  Then the list request to [hm].
    Then, if [ListMembers] returned this run's actual roster without error,
    the deletions at [hm] of the first [j] stale members of that roster, in
    its order.  Then at most one addition at [hm], of an expected member
    bearing the local name, and only after all the stale members have been
    deleted.  Every request goes to the client URL of an expected member. *)
Theorem main_requests_in_order (expected : list Member) (insId : string) (t0 : Trace) :
  ∃ evs k,
    (main env expected insId t0).2 = t0 ++ evs ∧
    ((∃ m e t1,
        FindHealthyMember env expected t0 = (Ret (m, Some e), t1) ∧
        k = length expected ∧
        http_requests evs = health_probe <$> expected)
     ∨
     ∃ hm t1 j0,
       FindHealthyMember env expected t0 = (Ret (hm, None), t1) ∧
       k = S j0 ∧ expected !! j0 = Some hm ∧
       ((∃ ms e t2,
           ListMembers env hm t1 = (Ret (ms, Some e), t2) ∧
           http_requests evs
           = (health_probe <$> take k expected) ++ [list_request hm])
        ∨
        ∃ actual t2 j adds,
          ListMembers env hm t1 = (Ret (actual, None), t2) ∧
          http_requests evs
          = (health_probe <$> take k expected) ++ [list_request hm]
              ++ (delete_request hm <$> take j (stale expected actual)) ++ adds ∧
          (adds = [] ∨
           (j = length (stale expected actual) ∧
            ∃ am, am ∈ expected ∧ Name am = insId ∧ adds = [add_request hm am])))).
Proof.
  destruct (FindHealthyMember_requests env expected t0)
    as ([hm [e|]] & evs0 & k & Hf & Hreq0 & Hk); cbn [fst snd] in Hk.
  { rewrite (main_no_healthy env _ insId _ _ _ _ Hf).
    destruct (fallback_requests env expected e (t0 ++ evs0)) as (evs & -> & Hreq).
    exists (evs0 ++ evs), k. split; [by rewrite <- app_assoc|].
    left. exists hm, e, (t0 ++ evs0). do 2 (split; [done|]).
    by rewrite http_requests_app, Hreq0, Hreq, app_nil_r, Hk, firstn_all. }
  destruct Hk as (j0 & Hk & Hj0).
  destruct (ListMembers_requests env hm (t0 ++ evs0))
    as ([actual [e|]] & evs1 & Hl & Hreq1).
  { rewrite (main_list_failed env _ insId _ _ _ _ _ _ Hf Hl).
    destruct (fallback_requests env expected e ((t0 ++ evs0) ++ evs1)) as (evs & -> & Hreq).
    exists (evs0 ++ evs1 ++ evs), k. split; [by rewrite <- !app_assoc|].
    right. exists hm, (t0 ++ evs0), j0. do 3 (split; [done|]). left.
    exists actual, e, ((t0 ++ evs0) ++ evs1). split; [done|].
    by rewrite !http_requests_app, Hreq0, Hreq1, Hreq, app_nil_r. }
  rewrite (main_reconcile env _ insId _ _ _ _ _ Hf Hl).
  destruct (reconcile_trace env hm expected actual insId ((t0 ++ evs0) ++ evs1))
    as (evs_p & evs_s & Hp & Htr & Hcases).
  destruct (RemoveStaleMembers_requests env hm expected actual ((t0 ++ evs0) ++ evs1))
    as (evs_p' & j & Hp' & Hreqp & Hj).
  rewrite Hp in Hp'. apply app_inv_head in Hp' as <-.
  exists (evs0 ++ evs1 ++ evs_p ++ evs_s), k. rewrite Htr.
  split; [by rewrite <- !app_assoc|].
  right. exists hm, (t0 ++ evs0), j0. do 3 (split; [done|]). right.
  exists actual, ((t0 ++ evs0) ++ evs1), j, (http_requests evs_s).
  split; [done|].
  split; [by rewrite !http_requests_app, Hreq0, Hreq1, Hreqp|].
  destruct Hcases as [(Ho & _ & Hs)|(_ & _ & ->)]; [|by left].
  destruct (ensure_self_trace env hm expected actual insId (((t0 ++ evs0) ++ evs1) ++ evs_p))
    as (evs_s' & Hs' & _ & Hreq & Hadd & _).
  rewrite Hs in Hs'. apply app_inv_head in Hs' as <-. rewrite Hreq.
  destruct Hadd as [[_ ->]|(myself & Hmy & Hname & _ & _ & ->)]; [by left|].
  right. split; [by apply Hj|]. by exists myself.
Qed.

(** X10. With an empty expected roster a run sends no request at all:
    [FindHealthyMember] has nobody to probe.  The local name is not looked
    up, so its absence from the roster goes unnoticed; the file system
    permitting, the run writes the directive with mode [new] and an empty
    peer list, and exits with status 0. *)
Theorem main_empty_roster (insId : string) (t0 : Trace) :
  ∃ evs,
    (main env [] insId t0).2 = t0 ++ evs ∧
    http_requests evs = [] ∧
    (writable env (t0 ++ [EvLog [VErr "No healthy member found"]]) →
     (main env [] insId t0).1 = Exit 0 ∧
     directives evs = [(dropInFile env, dropIn_text EmptyString "new")]).
Proof.
  rewrite (main_no_healthy env [] insId t0 Member_zero "No healthy member found" t0)
    by done.
  destruct (fallback_requests env [] "No healthy member found" t0) as (evs & Htr & Hreq).
  exists evs. do 2 (split; [done|]). intros Hw.
  unfold fallback, bind in *.
  rewrite (WriteDropIn_writable env [] "new" _ Hw) in *. cbn [fst snd] in *.
  split; [done|]. rewrite <- app_assoc in Htr. apply app_inv_head in Htr as <-. done.
Qed.

End ProtocolFacts.

Section EmptyListing.
Context (env : Env).

Lemma ListMembers_no_members hm t resp :
  httpClient env
    (t ++ [EvLog [VStr "Listing members using url"; VStr (url (list_request hm))]])
    (list_request hm) = HttpResp resp →
  decode_members env (Body resp) !! "members" = None →
  ∃ evs, ListMembers env hm t = (Ret ([], None), t ++ evs).
Proof.
  intros Hget Hnone. unfold ListMembers. cbv zeta. rewrite bind_log_Println.
  unfold httpClient_Get. rewrite bind_Do. fold (list_request hm).
  cbn [url list_request] in Hget. rewrite Hget, bind_log_Println.
  unfold lookup_total, map_lookup_total. rewrite Hnone. cbn.
  eexists. unfold ret. by rewrite <- !app_assoc.
Qed.

(** X11. A list response that completes but whose decoding has no [members]
    entry (a body that is not the expected JSON, which [ListMembers] does
    not report) is taken for a cluster without members: the run does not
    fall back to mode [new].  With the local name in the expected roster it
    removes nobody, makes exactly one [AddMember] call, for the local entry,
    and writes no directive other than the one with mode [existing]. *)
Theorem main_list_without_members (expected : list Member) (insId : string)
    (t0 : Trace) (hm : Member) (t1 : Trace) (resp : Response) :
  FindHealthyMember env expected t0 = (Ret (hm, None), t1) →
  httpClient env
    (t1 ++ [EvLog [VStr "Listing members using url"; VStr (url (list_request hm))]])
    (list_request hm) = HttpResp resp →
  decode_members env (Body resp) !! "members" = None →
  insId ∈ Name <$> expected →
  ∃ myself evs,
    myself ∈ expected ∧ Name myself = insId ∧
    (main env expected insId t0).2 = t0 ++ evs ∧
    removeMember_calls evs = [] ∧
    addMember_calls evs = [myself] ∧
    mutations evs = [add_request hm myself] ∧
    (main env expected insId t0).1 ≠ Exit 0 ∧
    (directives evs = [] ∨ directives evs = [directive_of env expected "existing"]).
Proof.
  intros Hf Hget Hnone Hin.
  destruct (ListMembers_no_members hm t1 resp Hget Hnone) as (evs1 & Hl).
  destruct (discovery_quiet env _ _ _ _ _ _ Hf Hl) as (evs0 & Ht2 & Hq1 & Hq2 & Hq3 & Hq4).
  rewrite (main_reconcile env _ insId _ _ _ _ _ Hf Hl).
  rewrite (bind_Ret _ _ _ _ _ (RemoveStaleMembers_nil env hm expected _)).
  assert (insId ∉ Name <$> ([] : list Member)) as Hact by (by intros ?%elem_of_nil).
  destruct (ensure_self_absent env hm expected [] insId (t1 ++ evs1) Hin Hact)
    as (myself & Hmem & Hname & ->). cbv zeta.
  exists myself. rewrite Ht2.
  destruct (httpClient env _ (add_request hm myself)) as [e|r].
  { eexists (evs0 ++ [_; _; _]). do 2 (split; [done|]).
    split; [by rewrite <- !app_assoc|].
    rewrite removeMember_calls_app, addMember_calls_app, mutations_app, directives_app,
      Hq1, Hq2, Hq3, Hq4.
    do 3 (split; [done|]). split; [done|by left]. }
  match goal with
  | |- context [WriteDropIn env expected "existing" ?t'] =>
      destruct (WriteDropIn_trace env expected "existing" t')
        as (evs & Htr & Hrm & Hadd & Hmut & _ & Hdir)
  end.
  eexists (evs0 ++ [_; _; _] ++ evs). rewrite Htr. do 2 (split; [done|]).
  split; [by rewrite <- !app_assoc|].
  rewrite !removeMember_calls_app, !addMember_calls_app, !mutations_app, !directives_app,
    Hq1, Hq2, Hq3, Hq4, Hrm, Hadd, Hmut.
  do 3 (split; [done|]).
  destruct Hdir as [[-> ->]|[-> ->]]; (split; [done|]); [by right|by left].
Qed.

End EmptyListing.

(** ** [NewClient] *)

Section NewClientFacts.
Import client.
Context (fs : Files).

(** X12. [NewClient] fails in two cases only, and with the error of the
    file operation that failed: both a certificate file and a key file are
    named and the pair cannot be loaded; or the pair is not asked for or
    loads, a CA file is named and it cannot be read.  On failure the client
    returned is the zero value. *)
Theorem NewClient_error (caFile certFile keyFile : string) (timeout : Z) (e : error) :
  ((NewClient fs caFile certFile keyFile timeout).2 = Some e ↔
   (certFile ≠ EmptyString ∧ keyFile ≠ EmptyString ∧
    LoadX509KeyPair fs certFile keyFile = inr e)
   ∨
   ((certFile = EmptyString ∨ keyFile = EmptyString ∨
     ∃ cert, LoadX509KeyPair fs certFile keyFile = inl cert) ∧
    caFile ≠ EmptyString ∧ ReadFile fs caFile = inr e))
  ∧
  ((NewClient fs caFile certFile keyFile timeout).2 ≠ None →
   (NewClient fs caFile certFile keyFile timeout).1 = mkClient None).
Proof.
  unfold NewClient. cbv zeta.
  destruct (decide (certFile ≠ EmptyString ∧ keyFile ≠ EmptyString)) as [[Hc Hk]|Hpair].
  - destruct (LoadX509KeyPair fs certFile keyFile) as [cert|e1] eqn:Hload; cbn.
    + destruct (decide (caFile ≠ EmptyString)) as [Hca|Hca].
      * destruct (ReadFile fs caFile) as [pem|e2] eqn:Hread; cbn.
        -- split; [|done]. split; [done|]. intros [(_ & _ & [=])|(_ & _ & [=])].
        -- split; [|done]. split.
           ++ intros [= ->]. right. split; [|done]. right. right. by eexists.
           ++ by intros [(_ & _ & [=])|(_ & _ & [= ->])].
      * cbn. split; [|done]. split; [done|]. intros [(_ & _ & [=])|(_ & ? & _)]; done.
    + split; [|done]. split.
      * intros [= ->]. by left.
      * intros [(_ & _ & [= ->])|([?|[?|[c [=]]]] & _)]; done.
  - assert (certFile = EmptyString ∨ keyFile = EmptyString) as Hempty.
    { destruct (decide (certFile = EmptyString)); [by left|].
      destruct (decide (keyFile = EmptyString)); [by right|]. by destruct Hpair. }
    destruct (decide (caFile ≠ EmptyString)) as [Hca|Hca].
    + destruct (ReadFile fs caFile) as [pem|e2] eqn:Hread; cbn.
      * split; [|done]. split; [done|].
        intros [(? & ? & _)|(_ & _ & [=])]. by destruct Hpair.
      * split; [|done]. split.
        -- intros [= ->]. right. split; [|done]. destruct Hempty; auto.
        -- intros [(? & ? & _)|(_ & _ & [= ->])]; [by destruct Hpair|done].
    + cbn. split; [|done]. split; [done|].
      intros [(? & ? & _)|(_ & ? & _)]; [by destruct Hpair|done].
Qed.

(** X13. A client certificate needs both files.  When the certificate file
    or the key file is not named, [NewClient] does not load a key pair at
    all (its result is the same whatever loading would give) and the client
    it returns presents no certificate; a certificate file named without a
    key file is dropped without an error. *)
Theorem NewClient_incomplete_pair (caFile certFile keyFile : string) (timeout : Z)
    (load' : string → string → string + error) :
  certFile = EmptyString ∨ keyFile = EmptyString →
  NewClient (mkFiles load' (ReadFile fs) (AppendCertsFromPEM fs))
            caFile certFile keyFile timeout
  = NewClient fs caFile certFile keyFile timeout
  ∧
  (∀ h tls,
     (NewClient fs caFile certFile keyFile timeout).1 = mkClient (Some h) →
     Transport h = Some tls → Certificates tls = []).
Proof.
  intros Hempty. unfold NewClient. cbv zeta. cbn [ReadFile AppendCertsFromPEM].
  destruct (decide (certFile ≠ EmptyString ∧ keyFile ≠ EmptyString)) as [[? ?]|_];
    [by destruct Hempty|].
  split; [done|]. intros h tls.
  destruct (decide (caFile ≠ EmptyString)).
  - destruct (ReadFile fs caFile); cbn; [|done].
    case_decide; intros [= <-]; cbn; [|done]. by intros [= <-].
  - cbn. case_decide; intros [= <-]; cbn; [|done]. by intros [= <-].
Qed.

(** X14. When [NewClient] succeeds, the HTTP client has the timeout given;
    it has a transport of its own exactly when a CA file or a certificate
    file is named, and that transport has a pool of root certificates of its
    own exactly when a CA file is named: the pool holds what the file's
    bytes yield, be it nothing. *)
Theorem NewClient_transport (caFile certFile keyFile : string) (timeout : Z) :
  (NewClient fs caFile certFile keyFile timeout).2 = None →
  ∃ h,
    (NewClient fs caFile certFile keyFile timeout).1 = mkClient (Some h) ∧
    Timeout h = timeout ∧
    (is_Some (Transport h) ↔ caFile ≠ EmptyString ∨ certFile ≠ EmptyString) ∧
    (∀ tls, Transport h = Some tls →
       (is_Some (RootCAs tls) ↔ caFile ≠ EmptyString) ∧
       (∀ pem, ReadFile fs caFile = inl pem → caFile ≠ EmptyString →
               RootCAs tls = Some (AppendCertsFromPEM fs pem))).
Proof.
  unfold NewClient. cbv zeta.
  destruct (decide (certFile ≠ EmptyString ∧ keyFile ≠ EmptyString)) as [[Hc Hk]|Hpair];
    [destruct (LoadX509KeyPair fs certFile keyFile) as [cert|e1]; [|done]|];
    (destruct (decide (caFile ≠ EmptyString)) as [Hca|Hca];
     [destruct (ReadFile fs caFile) as [pem|e2]; [|done]|]);
    cbn; intros _; eexists; (split; [reflexivity|]);
    case_decide as Hor; cbn;
    (split; [done|]);
    (split; [first [split; [done|by eauto] | split; [by intros [? [=]]|done]]|]);
    try (by intros ? [=]);
    intros tls [= <-]; cbn;
    (split; [first [split; [done|by eauto] | split; [by intros [? [=]]|done]]|]);
    try done; try (by intros ? [= <-] _).
Qed.

End NewClientFacts.

(** ** The inventory *)

Section InventoryFacts.
Import inventory.
Context (cloud : Cloud).

Lemma requests_app t1 t2 : requests (t1 ++ t2) = requests t1 ++ requests t2.
Proof. apply omap_app. Qed.

(** X15. [GetAsg] sends one request, for the one instance and one record.
    If the request fails it returns the error with an empty name.  If the
    answer lists no instance (the instance is in no group) it panics on the
    index, and if the first record has no group name it panics on the nil
    pointer; otherwise it returns the group name of the first record. *)
Theorem GetAsg_cases (insId : string) (t : list InvEvent) :
  ∃ evs,
    (GetAsg cloud insId t).2 = t ++ evs ∧
    requests evs = [InvDescribeAutoScalingInstances [insId] 1] ∧
    (GetAsg cloud insId t).1 =
    match DescribeAutoScalingInstances cloud [insId] 1 with
    | inr e => Ret (EmptyString, Some e)
    | inl [] => Panic index_out_of_range
    | inl (d :: _) =>
      match AutoScalingGroupName d with
      | None => Panic nil_dereference
      | Some name => Ret (name, None)
      end
    end.
Proof.
  unfold GetAsg, ibind, ilog. cbn.
  destruct (DescribeAutoScalingInstances cloud [insId] 1) as [[|d ds]|e]; cbn.
  - eexists [_; _]. by rewrite <- app_assoc.
  - destruct (AutoScalingGroupName d); cbn.
    + eexists [_; _; _]. by rewrite <- !app_assoc.
    + eexists [_; _]. by rewrite <- app_assoc.
  - eexists [_; _]. by rewrite <- app_assoc.
Qed.

Lemma GetAsgInstanceIds_loop_complete instances acc t :
  Forall (λ i, is_Some (LifecycleState i) ∧
               (¬ in_service i → is_Some (asg_InstanceId i))) instances →
  ∃ evs,
    GetAsgInstanceIds_loop instances acc t
    = (Ret (acc ++ (asg_InstanceId <$> filter in_service instances)), t ++ evs) ∧
    requests evs = [].
Proof.
  intros Hall. revert acc t.
  induction Hall as [|i instances [[st Hst] Hid] _ IH]; intros acc t.
  - exists []. cbn. by rewrite !app_nil_r.
  - destruct i as [oid ost]. cbn [LifecycleState asg_InstanceId] in *. subst ost.
    destruct (decide (st = "InService")) as [Hs|Hs].
    + rewrite filter_cons_True by (unfold in_service; cbn; by rewrite Hs).
      destruct (IH (acc ++ [oid])
                   (t ++ [InvLog [AStr ("Found instance %+v" +:+ LF);
                                  AInstance (mkAsgInstance oid (Some st))]]))
        as (evs & Hrun & Hreq).
      eexists ([_] ++ evs). split.
      { cbn [GetAsgInstanceIds_loop LifecycleState asg_InstanceId].
        unfold ibind at 1, ilog at 1. unfold ibind at 1. cbn [deref iret].
        rewrite decide_True by done. rewrite Hrun.
        rewrite fmap_cons. cbn [asg_InstanceId]. by rewrite <- !app_assoc. }
      by rewrite requests_app, Hreq.
    + assert (¬ in_service (mkAsgInstance oid (Some st))) as Hns
        by (unfold in_service; cbn; congruence).
      rewrite filter_cons_False by done.
      destruct (Hid Hns) as [id ->].
      destruct (IH acc
                   ((t ++ [InvLog [AStr ("Found instance %+v" +:+ LF);
                                   AInstance (mkAsgInstance (Some id) (Some st))]])
                    ++ [InvLog [AStr "Ignoring instance"; AStr id]]))
        as (evs & Hrun & Hreq).
      eexists ([_; _] ++ evs). split.
      { cbn [GetAsgInstanceIds_loop LifecycleState asg_InstanceId].
        unfold ibind at 1, ilog at 1. unfold ibind at 1. cbn [deref iret].
        rewrite decide_False by done.
        unfold ibind at 1. cbn [deref iret]. unfold ibind at 1, ilog at 1.
        rewrite Hrun. by rewrite <- !app_assoc. }
      by rewrite requests_app, Hreq.
Qed.

(** X16. When the provider answers with at least one group and every
    instance of the first group has a lifecycle state (and an identity, if
    it is not in service), [GetAsgInstanceIds] returns, without error, the
    identities of the instances of that group that are [InService], in the
    group's order, whether an identity is nil or not; the other instances
    and the other groups are left out.  One request is sent. *)
Theorem GetAsgInstanceIds_in_service (asgName : string) (g : Group) (gs : list Group)
    (t : list InvEvent) :
  DescribeAutoScalingGroups cloud [asgName] 1 = inl (g :: gs) →
  Forall (λ i, is_Some (LifecycleState i) ∧
               (¬ in_service i → is_Some (asg_InstanceId i))) (Instances g) →
  ∃ evs,
    GetAsgInstanceIds cloud asgName t
    = (Ret (asg_InstanceId <$> filter in_service (Instances g), None), t ++ evs) ∧
    requests evs = [InvDescribeAutoScalingGroups [asgName] 1].
Proof.
  intros Hresp Hall. unfold GetAsgInstanceIds. unfold ibind at 1, ilog at 1. cbn.
  unfold ibind at 1. cbn. rewrite Hresp. unfold ibind at 1. cbn.
  match goal with
  | |- context [GetAsgInstanceIds_loop (Instances g) [] ?t'] =>
      destruct (GetAsgInstanceIds_loop_complete (Instances g) [] t' Hall)
        as (evs & -> & Hreq)
  end.
  eexists ([_; _] ++ evs). split.
  { cbn. by rewrite <- !app_assoc. }
  by rewrite requests_app, Hreq.
Qed.

(** X17. When the provider answers with no group at all, and when an
    instance of the first group has no lifecycle state,
    [GetAsgInstanceIds] panics instead of returning an error. *)
Theorem GetAsgInstanceIds_panics (asgName : string) (t : list InvEvent) :
  (DescribeAutoScalingGroups cloud [asgName] 1 = inl [] →
   (GetAsgInstanceIds cloud asgName t).1 = Panic index_out_of_range)
  ∧
  (∀ id rest gs,
     DescribeAutoScalingGroups cloud [asgName] 1
     = inl (mkGroup (mkAsgInstance id None :: rest) :: gs) →
     (GetAsgInstanceIds cloud asgName t).1 = Panic nil_dereference).
Proof.
  split.
  - intros Hresp. unfold GetAsgInstanceIds, ibind, ilog. cbn. by rewrite Hresp.
  - intros id rest gs Hresp. unfold GetAsgInstanceIds, ibind, ilog. cbn.
    rewrite Hresp. cbn. unfold ibind, ilog. done.
Qed.

Lemma flatten_reservations (resp : list Reservation) (acc : list ec2Instance) :
  fold_left (λ instances reservation,
               fold_left (λ instances instance, instances ++ [instance])
                         (res_Instances reservation) instances)
            resp acc
  = acc ++ concat (res_Instances <$> resp).
Proof.
  revert acc. induction resp as [|r resp IH]; intros acc; cbn.
  - by rewrite app_nil_r.
  - rewrite IH. rewrite (fold_left_snoc (λ i, i)). rewrite list_fmap_id.
    by rewrite <- app_assoc.
Qed.

Lemma GetEC2Instances_run (instanceIds : list (option string)) (t : list InvEvent) :
  GetEC2Instances cloud instanceIds t =
  (Ret match DescribeInstances cloud instanceIds with
       | inr e => ([], Some e)
       | inl resp => (concat (res_Instances <$> resp), None)
       end,
   t ++ [InvDescribeInstances instanceIds]).
Proof.
  unfold GetEC2Instances, ibind. cbn.
  destruct (DescribeInstances cloud instanceIds) as [resp|e]; cbn; [|done].
  by rewrite flatten_reservations.
Qed.

(** X18. [GetEC2Instances] sends one request, for the identities it is
    given, as given.  If it fails the error is returned with no instance;
    otherwise the instances of all the reservations of the answer are
    returned, reservation after reservation, in order. *)
Theorem GetEC2Instances_flattens (instanceIds : list (option string))
    (t : list InvEvent) :
  GetEC2Instances cloud instanceIds t =
  (Ret match DescribeInstances cloud instanceIds with
       | inr e => ([], Some e)
       | inl resp => (concat (res_Instances <$> resp), None)
       end,
   t ++ [InvDescribeInstances instanceIds]).
Proof. apply GetEC2Instances_run. Qed.

End InventoryFacts.

Section RosterFacts.
Import inventory.
Context (cloud : Cloud).

Lemma GetExpectedMembers_loop_complete (hosts : list (string * string)) acc t :
  GetExpectedMembers_loop cloud
    ((λ h, mkEc2Instance (Some h.1) (Some h.2)) <$> hosts) acc t
  = (Ret (acc ++ ((λ h, derived_member cloud h.1 h.2) <$> hosts)), t).
Proof.
  revert acc. induction hosts as [|[id ip] hosts IH]; intros acc; cbn.
  - by rewrite app_nil_r.
  - unfold ibind. cbn. fold (derived_member cloud id ip).
    specialize (IH (acc ++ [derived_member cloud id ip])).
    unfold derived_member in *. cbn in IH. rewrite IH. by rewrite <- app_assoc.
Qed.

Lemma GetExpectedMembers_loop_panics instances acc t :
  ¬ Forall (λ i, is_Some (InstanceId i) ∧ is_Some (PrivateIpAddress i)) instances →
  GetExpectedMembers_loop cloud instances acc t = (Panic nil_dereference, t).
Proof.
  revert acc. induction instances as [|[[id|] [ip|]] instances IH]; intros acc Hnot;
    [by destruct Hnot| |done..].
  cbn. unfold ibind. cbn. apply IH. intros Hall. apply Hnot.
  constructor; [|done]. by split; eexists.
Qed.

(** X19. When the three requests succeed and every instance described has
    an identity and a private address, [GetExpectedMembers] returns, without
    error, one member per instance, in the order of the answer: its name is
    the instance identity, its [id] is empty, its client URL is
    [schema://address:port] with the client schema and port, its peer URL
    the same with the peer schema and port.  The describe request is sent
    for exactly the identities [GetAsgInstanceIds] returned. *)
Theorem GetExpectedMembers_derives (insId : string) (t : list InvEvent)
    (asg : string) (t1 : list InvEvent) (ids : list (option string))
    (t2 : list InvEvent) (resp : list Reservation) (hosts : list (string * string)) :
  GetAsg cloud insId t = (Ret (asg, None), t1) →
  GetAsgInstanceIds cloud asg t1 = (Ret (ids, None), t2) →
  DescribeInstances cloud ids = inl resp →
  concat (res_Instances <$> resp)
  = (λ h, mkEc2Instance (Some h.1) (Some h.2)) <$> hosts →
  GetExpectedMembers cloud insId t =
  (Ret ((λ h, derived_member cloud h.1 h.2) <$> hosts, None),
   t2 ++ [InvDescribeInstances ids;
          InvLog [AStr ("Expected Members %+v" +:+ LF);
                  AMembers ((λ h, derived_member cloud h.1 h.2) <$> hosts)]]).
Proof.
  intros Hg Hi Hd Hhosts. unfold GetExpectedMembers. cbv zeta.
  unfold ibind at 1. rewrite Hg. unfold ibind at 1. rewrite Hi.
  unfold ibind at 1. rewrite GetEC2Instances_run, Hd, Hhosts.
  unfold ibind at 1. rewrite GetExpectedMembers_loop_complete. cbn [app].
  unfold ibind, ilog, iret. by rewrite <- app_assoc.
Qed.

(** X20. When the three requests succeed but some instance described lacks
    an identity or a private address, [GetExpectedMembers] panics on the nil
    pointer: it neither skips the instance nor returns an error. *)
Theorem GetExpectedMembers_panics (insId : string) (t : list InvEvent)
    (asg : string) (t1 : list InvEvent) (ids : list (option string))
    (t2 : list InvEvent) (resp : list Reservation) :
  GetAsg cloud insId t = (Ret (asg, None), t1) →
  GetAsgInstanceIds cloud asg t1 = (Ret (ids, None), t2) →
  DescribeInstances cloud ids = inl resp →
  ¬ Forall (λ i, is_Some (InstanceId i) ∧ is_Some (PrivateIpAddress i))
           (concat (res_Instances <$> resp)) →
  (GetExpectedMembers cloud insId t).1 = Panic nil_dereference.
Proof.
  intros Hg Hi Hd Hnot. unfold GetExpectedMembers. cbv zeta.
  unfold ibind at 1. rewrite Hg. unfold ibind at 1. rewrite Hi.
  unfold ibind at 1. rewrite GetEC2Instances_run, Hd.
  unfold ibind at 1. by rewrite GetExpectedMembers_loop_panics.
Qed.

Lemma GetAsg_returned insId t name err t' :
  GetAsg cloud insId t = (Ret (name, err), t') →
  ∃ evs, t' = t ++ evs ∧
    requests evs = [InvDescribeAutoScalingInstances [insId] 1] ∧
    (∀ e, err = Some e → DescribeAutoScalingInstances cloud [insId] 1 = inr e).
Proof.
  unfold GetAsg, ibind, ilog. cbn.
  destruct (DescribeAutoScalingInstances cloud [insId] 1) as [[|d ds]|e]; cbn; [done| |].
  - destruct (AutoScalingGroupName d); cbn; [|done]. intros [= <- <- <-].
    eexists [_; _; _]. split; [by rewrite <- !app_assoc|]. split; [done|]. by intros ? [=].
  - intros [= <- <- <-]. eexists [_; _]. split; [by rewrite <- !app_assoc|].
    split; [done|]. by intros ? [= <-].
Qed.

Lemma GetAsgInstanceIds_loop_requests instances acc t :
  ∃ evs, (GetAsgInstanceIds_loop instances acc t).2 = t ++ evs ∧ requests evs = [].
Proof.
  revert acc t. induction instances as [|[oid [st|]] instances IH]; intros acc t.
  - exists []. cbn. by rewrite app_nil_r.
  - cbn [GetAsgInstanceIds_loop LifecycleState asg_InstanceId].
    unfold ibind at 1, ilog at 1. unfold ibind at 1. cbn [deref iret].
    case_decide.
    + match goal with
      | |- context [GetAsgInstanceIds_loop instances ?a ?t'] =>
          destruct (IH a t') as (evs & -> & Hreq)
      end.
      eexists ([_] ++ evs). split; [by rewrite <- !app_assoc|].
      by rewrite requests_app, Hreq.
    + destruct oid as [id|]; unfold ibind at 1; cbn [deref iret ipanic].
      * unfold ibind at 1, ilog at 1.
        match goal with
        | |- context [GetAsgInstanceIds_loop instances ?a ?t'] =>
            destruct (IH a t') as (evs & -> & Hreq)
        end.
        eexists ([_; _] ++ evs). split; [by rewrite <- !app_assoc|].
        by rewrite requests_app, Hreq.
      * by eexists [_].
  - cbn [GetAsgInstanceIds_loop LifecycleState asg_InstanceId].
    unfold ibind at 1, ilog at 1. unfold ibind at 1. cbn [deref iret ipanic].
    by eexists [_].
Qed.

Lemma GetAsgInstanceIds_returned asgName t ids err t' :
  GetAsgInstanceIds cloud asgName t = (Ret (ids, err), t') →
  ∃ evs, t' = t ++ evs ∧
    requests evs = [InvDescribeAutoScalingGroups [asgName] 1] ∧
    (∀ e, err = Some e → DescribeAutoScalingGroups cloud [asgName] 1 = inr e).
Proof.
  unfold GetAsgInstanceIds. unfold ibind at 1, ilog at 1. cbn.
  unfold ibind at 1. cbn.
  destruct (DescribeAutoScalingGroups cloud [asgName] 1) as [[|g gs]|e]; cbn; [done| |].
  - unfold ibind at 1.
    match goal with
    | |- context [GetAsgInstanceIds_loop (Instances g) [] ?t0] =>
        destruct (GetAsgInstanceIds_loop_requests (Instances g) [] t0) as (evs & Htr & Hreq);
        destruct (GetAsgInstanceIds_loop (Instances g) [] t0) as [[r| |] t'']
    end; cbn in *; [|done..].
    intros [= <- <- <-]. subst t''.
    eexists ([_; _] ++ evs). split; [by rewrite <- !app_assoc|].
    split; [by rewrite requests_app, Hreq|]. by intros ? [=].
  - intros [= <- <- <-]. eexists [_; _]. split; [by rewrite <- !app_assoc|].
    split; [done|]. by intros ? [= <-].
Qed.

(** X21. Whenever [GetExpectedMembers] returns an error, the roster it
    returns with it is empty, the error is the one of the last request it
    sent, and it sent no request after that one: the instances request
    alone, or followed by the groups request, or followed by both that and
    the describe request. *)
Theorem GetExpectedMembers_error (insId : string) (t : list InvEvent)
    (ms : list Member) (e : error) :
  (GetExpectedMembers cloud insId t).1 = Ret (ms, Some e) →
  ms = [] ∧
  ∃ evs,
    (GetExpectedMembers cloud insId t).2 = t ++ evs ∧
    ((requests evs = [InvDescribeAutoScalingInstances [insId] 1] ∧
      DescribeAutoScalingInstances cloud [insId] 1 = inr e)
     ∨
     (∃ asg,
        requests evs = [InvDescribeAutoScalingInstances [insId] 1;
                        InvDescribeAutoScalingGroups [asg] 1] ∧
        DescribeAutoScalingGroups cloud [asg] 1 = inr e)
     ∨
     (∃ asg ids,
        requests evs = [InvDescribeAutoScalingInstances [insId] 1;
                        InvDescribeAutoScalingGroups [asg] 1;
                        InvDescribeInstances ids] ∧
        DescribeInstances cloud ids = inr e)).
Proof.
  intros Hret. destruct (GetExpectedMembers cloud insId t) as [o tf] eqn:Hrun.
  cbn [fst snd] in *. subst o.
  unfold GetExpectedMembers in Hrun. cbv zeta in Hrun. unfold ibind at 1 in Hrun.
  destruct (GetAsg cloud insId t) as [[[asg [e1|]]| |] t1] eqn:Hg; try done.
  { injection Hrun as <- <- <-. split; [done|].
    destruct (GetAsg_returned _ _ _ _ _ Hg) as (evs & -> & Hreq & He).
    exists evs. split; [done|]. left. split; [done|]. by apply He. }
  destruct (GetAsg_returned _ _ _ _ _ Hg) as (evs1 & -> & Hreq1 & _).
  unfold ibind at 1 in Hrun.
  destruct (GetAsgInstanceIds cloud asg (t ++ evs1)) as [[[ids [e2|]]| |] t2] eqn:Hi;
    try done.
  { injection Hrun as <- <- <-. split; [done|].
    destruct (GetAsgInstanceIds_returned _ _ _ _ _ Hi) as (evs2 & -> & Hreq2 & He).
    exists (evs1 ++ evs2). split; [by rewrite <- app_assoc|]. right. left. exists asg.
    rewrite requests_app, Hreq1, Hreq2. split; [done|]. by apply He. }
  destruct (GetAsgInstanceIds_returned _ _ _ _ _ Hi) as (evs2 & -> & Hreq2 & _).
  unfold ibind at 1 in Hrun. rewrite GetEC2Instances_run in Hrun.
  destruct (DescribeInstances cloud ids) as [resp|e3] eqn:Hd.
  - unfold ibind at 1 in Hrun.
    destruct (GetExpectedMembers_loop cloud _ [] _) as [[r| |] t3]; cbn in Hrun; done.
  - injection Hrun as <- <- <-. split; [done|].
    exists (evs1 ++ evs2 ++ [InvDescribeInstances ids]).
    split; [by rewrite <- !app_assoc|]. right. right. exists asg, ids.
    rewrite !requests_app, Hreq1, Hreq2. done.
Qed.

End RosterFacts.

(** ** Concrete runs, continued *)

Lemma GetMyself_first_witness :
  Name mB = "i-b" ∧ ("i-b" ∉ Name <$> [mA]) ∧
  GetMyself ([mA] ++ mB :: [mB']) "i-b" [] = (Ret mB, []).
Proof.
  assert (Name mB = "i-b") as H1 by reflexivity.
  assert ("i-b" ∉ Name <$> [mA]) as H2 by decide_by_computation.
  do 2 (split; [assumption|]).
  exact (GetMyself_first [mA] mB [mB'] "i-b" [] H1 H2).
Defined.

Lemma main_list_without_members_witness :
  FindHealthyMember garbled [mA; mB] [] = (Ret (mA, None), probed_A) ∧
  httpClient garbled
    (probed_A ++ [EvLog [VStr "Listing members using url"; VStr (url (list_request mA))]])
    (list_request mA) = HttpResp (mkResponse 200 "M") ∧
  decode_members garbled (Body (mkResponse 200 "M")) !! "members" = None ∧
  "i-b" ∈ Name <$> [mA; mB] ∧
  ∃ myself evs,
    Name myself = "i-b" ∧
    (main garbled [mA; mB] "i-b" []).2 = [] ++ evs ∧
    removeMember_calls evs = [] ∧
    addMember_calls evs = [myself] ∧
    (main garbled [mA; mB] "i-b" []).1 ≠ Exit 0.
Proof.
  assert (FindHealthyMember garbled [mA; mB] [] = (Ret (mA, None), probed_A))
    as H1 by by_computation.
  assert (httpClient garbled
            (probed_A ++ [EvLog [VStr "Listing members using url";
                                 VStr (url (list_request mA))]])
            (list_request mA) = HttpResp (mkResponse 200 "M")) as H2 by by_computation.
  assert (decode_members garbled (Body (mkResponse 200 "M")) !! "members" = None)
    as H3 by reflexivity.
  assert ("i-b" ∈ Name <$> [mA; mB]) as H4 by decide_by_computation.
  do 4 (split; [assumption|]).
  destruct (main_list_without_members garbled [mA; mB] "i-b" [] mA probed_A _ H1 H2 H3 H4)
    as (myself & evs & _ & Hname & Htr & Hrm & Hadd & _ & Hne & _).
  exists myself, evs. do 4 (split; [assumption|]). exact Hne.
Defined.

Lemma NewClient_incomplete_pair_witness :
  ("cert.pem" = EmptyString ∨ EmptyString = EmptyString) ∧
  client.NewClient
    (client.mkFiles (λ _ _, inr "no such file") (client.ReadFile readable)
                    (client.AppendCertsFromPEM readable))
    EmptyString "cert.pem" EmptyString 5
  = (client.mkClient (Some (client.mkHttp 5 (Some (client.mkTls [] None)))), None).
Proof.
  assert ("cert.pem" = EmptyString ∨ EmptyString = EmptyString) as H by (by right).
  split; [assumption|].
  destruct (NewClient_incomplete_pair readable EmptyString "cert.pem" EmptyString 5
              (λ _ _, inr "no such file") H) as [-> _].
  by_computation.
Defined.

Lemma NewClient_transport_witness :
  (client.NewClient readable "ca.pem" EmptyString EmptyString 5).2 = None ∧
  ∃ h,
    (client.NewClient readable "ca.pem" EmptyString EmptyString 5).1
    = client.mkClient (Some h) ∧
    client.Timeout h = 5 ∧
    (is_Some (client.Transport h) ↔ "ca.pem" ≠ EmptyString ∨ EmptyString ≠ EmptyString).
Proof.
  assert ((client.NewClient readable "ca.pem" EmptyString EmptyString 5).2 = None)
    as H by reflexivity.
  split; [assumption|].
  destruct (NewClient_transport readable "ca.pem" EmptyString EmptyString 5 H)
    as (h & Hc & Ht & Htr & _).
  exists h. do 2 (split; [assumption|]). exact Htr.
Defined.

Lemma GetAsgInstanceIds_in_service_witness :
  inventory.DescribeAutoScalingGroups (provider (Some "10.0.0.6") false) ["etcd"] 1
  = inl [inventory.mkGroup
           [inventory.mkAsgInstance (Some "i-a") (Some "InService");
            inventory.mkAsgInstance (Some "i-t") (Some "Terminating");
            inventory.mkAsgInstance (Some "i-b") (Some "InService")]] ∧
  (inventory.GetAsgInstanceIds (provider (Some "10.0.0.6") false) "etcd" []).1
  = Ret ([Some "i-a"; Some "i-b"], None).
Proof.
  assert (inventory.DescribeAutoScalingGroups (provider (Some "10.0.0.6") false) ["etcd"] 1
          = inl [inventory.mkGroup
                   [inventory.mkAsgInstance (Some "i-a") (Some "InService");
                    inventory.mkAsgInstance (Some "i-t") (Some "Terminating");
                    inventory.mkAsgInstance (Some "i-b") (Some "InService")]])
    as H by reflexivity.
  split; [assumption|].
  destruct (GetAsgInstanceIds_in_service (provider (Some "10.0.0.6") false) "etcd" _ _ [] H)
    as (evs & -> & _).
  - repeat constructor; try (by eexists); intros _; by eexists.
  - by_computation.
Defined.

(** The instance at 10.0.0.5, with the client on https and port 2379 and the
    peers on http and port 2380. *)
Lemma GetExpectedMembers_derives_witness :
  inventory.GetAsg (provider (Some "10.0.0.6") false) "i-a" []
  = (Ret ("etcd", None),
     (inventory.GetAsg (provider (Some "10.0.0.6") false) "i-a" []).2) ∧
  (inventory.GetExpectedMembers (provider (Some "10.0.0.6") false) "i-a" []).1
  = Ret ([mkMember EmptyString "i-a" "https://10.0.0.5:2379" "http://10.0.0.5:2380";
          mkMember EmptyString "i-b" "https://10.0.0.6:2379" "http://10.0.0.6:2380"],
         None).
Proof.
  assert (inventory.GetAsg (provider (Some "10.0.0.6") false) "i-a" []
          = (Ret ("etcd", None),
             (inventory.GetAsg (provider (Some "10.0.0.6") false) "i-a" []).2))
    as H1 by by_computation.
  split; [assumption|].
  rewrite (GetExpectedMembers_derives (provider (Some "10.0.0.6") false) "i-a" []
             "etcd" _ [Some "i-a"; Some "i-b"]
             (inventory.GetAsgInstanceIds (provider (Some "10.0.0.6") false) "etcd"
                (inventory.GetAsg (provider (Some "10.0.0.6") false) "i-a" []).2).2
             [inventory.mkReservation
                [inventory.mkEc2Instance (Some "i-a") (Some "10.0.0.5")];
              inventory.mkReservation
                [inventory.mkEc2Instance (Some "i-b") (Some "10.0.0.6")]]
             [("i-a", "10.0.0.5"); ("i-b", "10.0.0.6")] H1);
    by_computation.
Defined.

Lemma GetExpectedMembers_panics_witness :
  inventory.GetAsg (provider None false) "i-a" []
  = (Ret ("etcd", None), (inventory.GetAsg (provider None false) "i-a" []).2) ∧
  (inventory.GetExpectedMembers (provider None false) "i-a" []).1
  = Panic inventory.nil_dereference.
Proof.
  assert (inventory.GetAsg (provider None false) "i-a" []
          = (Ret ("etcd", None), (inventory.GetAsg (provider None false) "i-a" []).2))
    as H1 by by_computation.
  split; [assumption|].
  apply (GetExpectedMembers_panics (provider None false) "i-a" []
           "etcd" _ [Some "i-a"; Some "i-b"]
           (inventory.GetAsgInstanceIds (provider None false) "etcd"
              (inventory.GetAsg (provider None false) "i-a" []).2).2
           [inventory.mkReservation
              [inventory.mkEc2Instance (Some "i-a") (Some "10.0.0.5")];
            inventory.mkReservation [inventory.mkEc2Instance (Some "i-b") None]] H1);
    [by_computation|reflexivity|].
  intros Hall. cbn in Hall. apply Forall_cons in Hall as [_ Hall].
  apply Forall_cons in Hall as [[_ [ip Hip]] _]. discriminate Hip.
Defined.

Lemma GetExpectedMembers_error_witness :
  (inventory.GetExpectedMembers (provider None true) "i-a" []).1
  = Ret ([], Some "Throttling") ∧
  ∃ evs,
    (inventory.GetExpectedMembers (provider None true) "i-a" []).2 = [] ++ evs ∧
    inventory.requests evs
    = [inventory.InvDescribeAutoScalingInstances ["i-a"] 1;
       inventory.InvDescribeAutoScalingGroups ["etcd"] 1].
Proof.
  assert ((inventory.GetExpectedMembers (provider None true) "i-a" []).1
          = Ret ([], Some "Throttling")) as H by by_computation.
  split; [assumption|].
  destruct (GetExpectedMembers_error (provider None true) "i-a" [] [] "Throttling" H)
    as (_ & evs & Htr & _).
  exists evs. split; [assumption|].
  cbn [app] in Htr. rewrite <- Htr. by_computation.
Defined.
